(** * photo-converter: the input-resolution and batch-conversion pipeline

    A shallow embedding of [src/url-parser.ts] (class [InputParser]),
    [src/google-drive.ts] (the two methods of [GoogleDriveService] the
    converter calls), [src/types.ts] and [src/converter.ts] (class
    [ImageConverter]), followed by the properties of the pipeline.

    Conventions.
    - JavaScript strings are Rocq strings; a character stands for one code
      unit.  [toLowerCase] folds the ASCII letters only.
    - JavaScript numbers that count or measure milliseconds are integers [Z].
    - An [async] function is a computation in the monad [M]: it threads the
      state of the outside world and either returns a value or throws.
      [await] is sequencing; the code has no concurrency.
    - [console.log] has no effect on any value or on the file system and is
      left out.
    - Everything the program does not define itself (the WHATWG URL parser,
      Node's [path] and [process], [fs-extra], [sharp], the Drive client) is
      a field of the class [Platform]; theorems hold for every platform.
      [path.extname] is written out after Node's POSIX implementation
      because the code's notion of a TIFF file name rests on it.
    - Every call of the platform may throw, except [process.cwd()],
      [Date.now()] and [fs.pathExists] (which [fs-extra] turns into [false]
      on any error).  In particular [fs.remove] may reject, and what it then
      leaves of the path is up to the platform.
    - The file system below a directory is a finite tree: an entry that is a
      directory carries the answer [fs.readdir] gives for it, which may be
      an error.
    - Each call that leaves the program is recorded in a trace, so that
      "without calling the codec" and "before any input is processed" are
      statements about the trace. *)

From Stdlib Require Import String Ascii List ZArith Bool Lia.
Import ListNotations.
Local Open Scope string_scope.
Local Open Scope Z_scope.
Set Warnings "-register-all".

(* ================================================================== *)
(** * JavaScript values the code manipulates *)
(* ================================================================== *)

Module Js.

(** A thrown value: an [Error] object with its [message], or any other
    value, kept as the text [String(value)] gives. *)
Inductive exn : Type :=
| JsError (message : string)
| JsThrown (text : string).

(** [error instanceof Error ? error.message : 'Unknown error'] *)
Definition message_of (e : exn) : string :=
  match e with
  | JsError m => m
  | JsThrown _ => "Unknown error"
  end.

(** The template-literal conversion [`${error}`]. *)
Definition to_text (e : exn) : string :=
  match e with
  | JsError m => "Error: " ++ m
  | JsThrown t => t
  end.

(** The result of running a piece of code: a value or a thrown exception. *)
Inductive outcome (A : Type) : Type :=
| Ok (a : A)
| Throw (e : exn).
Arguments Ok {A} a.
Arguments Throw {A} e.

Definition in_range (lo hi c : ascii) : bool :=
  ((nat_of_ascii lo <=? nat_of_ascii c) && (nat_of_ascii c <=? nat_of_ascii hi))%nat.

Definition lower_char (c : ascii) : ascii :=
  if in_range "A" "Z" c then ascii_of_nat (nat_of_ascii c + 32) else c.

(** [String.prototype.toLowerCase] *)
Fixpoint toLowerCase (s : string) : string :=
  match s with
  | EmptyString => EmptyString
  | String c s' => String (lower_char c) (toLowerCase s')
  end.

(** [strip_prefix p s] is [Some r] when [s = p ++ r]. *)
Fixpoint strip_prefix (p s : string) : option string :=
  match p with
  | EmptyString => Some s
  | String a p' =>
      match s with
      | EmptyString => None
      | String b s' => if Ascii.eqb a b then strip_prefix p' s' else None
      end
  end.

(** [String.prototype.includes] *)
Fixpoint includes (s sub : string) : bool :=
  match strip_prefix sub s with
  | Some _ => true
  | None =>
      match s with
      | EmptyString => false
      | String _ s' => includes s' sub
      end
  end.

(** The character class [[a-zA-Z0-9-_]] of the three folder patterns. *)
Definition is_id_char (c : ascii) : bool :=
  in_range "a" "z" c || in_range "A" "Z" c || in_range "0" "9" c
  || Ascii.eqb c "-" || Ascii.eqb c "_".

(** The greedy group [([a-zA-Z0-9-_]+)] read at the head of [s]; empty when
    the first character is outside the class. *)
Fixpoint span_id (s : string) : string :=
  match s with
  | EmptyString => EmptyString
  | String c s' => if is_id_char c then String c (span_id s') else EmptyString
  end.

(** The regular expression [/lit([a-zA-Z0-9-_]+)/] tried at the head of [s]. *)
Definition match_here (lit s : string) : option string :=
  match strip_prefix lit s with
  | Some rest =>
      match span_id rest with
      | EmptyString => None
      | cap => Some cap
      end
  | None => None
  end.

(** [s.match(/lit([a-zA-Z0-9-_]+)/)]: group 1 of the leftmost match, [None]
    for a [null] result. *)
Fixpoint regex_match (lit s : string) : option string :=
  match match_here lit s with
  | Some cap => Some cap
  | None =>
      match s with
      | EmptyString => None
      | String _ s' => regex_match lit s'
      end
  end.

(** Truthiness of a string: every string but the empty one. *)
Definition truthy (s : string) : bool :=
  match s with
  | EmptyString => false
  | String _ _ => true
  end.

End Js.
Export Js.

(* ================================================================== *)
(** * Node's [path.extname] (POSIX) *)
(* ================================================================== *)

Module NodePath.

(** The variables of the scanning loop of [path.extname]. *)
Record ExtScan : Type := mkExtScan {
  startDot : Z;
  startPart : Z;
  endPos : Z;
  matchedSlash : bool;
  preDotState : Z
}.

Definition ExtScan_init : ExtScan :=
  {| startDot := -1; startPart := 0; endPos := -1; matchedSlash := true; preDotState := 0 |}.

(** The loop [for (let i = path.length - 1; i >= 0; --i)], with [n = i + 1]. *)
Fixpoint extname_scan (p : string) (n : nat) (st : ExtScan) : ExtScan :=
  match n with
  | O => st
  | S i =>
      match String.get i p with
      | None => st
      | Some code =>
          if Ascii.eqb code "/" then
            if negb (matchedSlash st) then
              (* startPart = i + 1; break *)
              {| startDot := startDot st; startPart := Z.of_nat i + 1; endPos := endPos st;
                 matchedSlash := matchedSlash st; preDotState := preDotState st |}
            else extname_scan p i st
          else
            let st1 :=
              if endPos st =? -1 then
                {| startDot := startDot st; startPart := startPart st; endPos := Z.of_nat i + 1;
                   matchedSlash := false; preDotState := preDotState st |}
              else st in
            let st2 :=
              if Ascii.eqb code "." then
                if startDot st1 =? -1 then
                  {| startDot := Z.of_nat i; startPart := startPart st1; endPos := endPos st1;
                     matchedSlash := matchedSlash st1; preDotState := preDotState st1 |}
                else if negb (preDotState st1 =? 1) then
                  {| startDot := startDot st1; startPart := startPart st1; endPos := endPos st1;
                     matchedSlash := matchedSlash st1; preDotState := 1 |}
                else st1
              else if negb (startDot st1 =? -1) then
                {| startDot := startDot st1; startPart := startPart st1; endPos := endPos st1;
                   matchedSlash := matchedSlash st1; preDotState := -1 |}
              else st1 in
            extname_scan p i st2
      end
  end.

(** [path.extname(p)] *)
Definition extname (p : string) : string :=
  let st := extname_scan p (String.length p) ExtScan_init in
  if (startDot st =? -1) || (endPos st =? -1) || (preDotState st =? 0)
     || ((preDotState st =? 1) && (startDot st =? endPos st - 1)
         && (startDot st =? startPart st + 1))
  then EmptyString
  else substring (Z.to_nat (startDot st)) (Z.to_nat (endPos st - startDot st)) p.

End NodePath.

(** [ext === '.tif' || ext === '.tiff'] for [ext = path.extname(p).toLowerCase()],
    the test shared by [isValidTiffFile] and [findTiffFiles]. *)
Definition hasTiffExtension (p : string) : bool :=
  let ext := toLowerCase (NodePath.extname p) in
  String.eqb ext ".tif" || String.eqb ext ".tiff".

(* ================================================================== *)
(** * [src/types.ts] *)
(* ================================================================== *)

Record ConversionOptions : Type := {
  quality : Z;
  outputDir : option string;
  recursive : bool;
  overwrite : bool
}.

Record ConversionResult : Type := {
  inputPath : string;
  outputPath : string;
  success : bool;
  error : option string;
  processingTime : Z
}.

Record ConversionStats : Type := {
  total : Z;
  successful : Z;
  failed : Z;
  totalTime : Z
}.

(* ================================================================== *)
(** * The platform: what the program calls and does not define *)
(* ================================================================== *)

(** [fs.Stats] and [fs.Dirent] answer [isFile()] and [isDirectory()]; at most
    one of the two holds. *)
Inductive FileKind : Type := IsFile | IsDirectory | IsOther.

Definition isFile (k : FileKind) : bool :=
  match k with IsFile => true | _ => false end.

Definition isDirectory (k : FileKind) : bool :=
  match k with IsDirectory => true | _ => false end.

(** An entry of [fs.readdir(dir, { withFileTypes: true })].  An entry that is
    a directory carries what [fs.readdir] answers for its own path, so that a
    listing is the finite tree below the directory read. *)
Inductive Dirent : Type :=
| DirentFile (name : string)
| DirentDirectory (name : string) (listing : outcome (list Dirent))
| DirentOther (name : string).

Definition dirent_name (d : Dirent) : string :=
  match d with
  | DirentFile n => n
  | DirentDirectory n _ => n
  | DirentOther n => n
  end.

Definition dirent_kind (d : Dirent) : FileKind :=
  match d with
  | DirentFile _ => IsFile
  | DirentDirectory _ _ => IsDirectory
  | DirentOther _ => IsOther
  end.

(** [sharp(...).metadata()]: only [format] is read. *)
Record Metadata : Type := { format : option string }.

(** [GoogleDriveFile] of [src/google-drive.ts]. *)
Record GoogleDriveFile : Type := {
  id : string;
  name : string;
  mimeType : string;
  size : option string
}.

Class Platform : Type := {
  World : Type;
  (** [new URL(input).hostname]; [None] when the constructor throws. *)
  URL_hostname : string -> option string;
  (** [path.join(a, b)], [path.resolve(p)] from a working directory,
      [path.dirname(p)], [path.basename(p, ext)]. *)
  path_join : string -> string -> string;
  path_resolve : string -> string -> string;
  path_dirname : string -> string;
  path_basename : string -> string -> string;
  (** [process.cwd()] and [Date.now()]. *)
  process_cwd : World -> string;
  Date_now : World -> Z * World;
  (** [fs-extra] *)
  fs_ensureDir : string -> World -> outcome unit * World;
  fs_pathExists : string -> World -> bool;
  fs_stat : string -> World -> outcome FileKind;
  fs_readdir : string -> World -> outcome (list Dirent);
  fs_remove : string -> World -> outcome unit * World;
  (** [sharp(p).metadata()] and [sharp(p).jpeg({ quality }).toFile(out)]. *)
  sharp_metadata : string -> World -> outcome Metadata;
  sharp_toFile : string -> Z -> string -> World -> outcome unit * World;
  (** [drive.files.list({ q, ... })] giving [response.data.files],
      [drive.files.get({ fileId, alt: 'media' })], and the piping of the
      response stream into a write stream on a path. *)
  drive_files_list : string -> World -> outcome (option (list GoogleDriveFile)) * World;
  drive_files_get : string -> World -> outcome unit * World;
  drive_stream_to : string -> string -> World -> outcome unit * World
}.

(** What the code relies on from [fs-extra]: once [fs.remove(p)] has
    resolved, [fs.pathExists(p)] is false.  Nothing is said of a removal
    that rejects. *)
Class PlatformLaws (P : Platform) : Prop := {
  pathExists_remove : forall (p : string) (w : World),
    fst (fs_remove p w) = Ok tt -> fs_pathExists p (snd (fs_remove p w)) = false
}.

(** Nothing but [fs.remove] deletes: a path that exists still does after the
    clock is read, a directory is ensured, an image is written, or the Drive
    client is called; and a directory that was ensured exists. *)
Class PlatformKeeps (P : Platform) : Prop := {
  ensureDir_creates : forall (p : string) (w : World),
    fst (fs_ensureDir p w) = Ok tt -> fs_pathExists p (snd (fs_ensureDir p w)) = true;
  keeps_now : forall (p : string) (w : World),
    fs_pathExists p w = true -> fs_pathExists p (snd (Date_now w)) = true;
  keeps_ensureDir : forall (p q : string) (w : World),
    fs_pathExists p w = true -> fs_pathExists p (snd (fs_ensureDir q w)) = true;
  keeps_toFile : forall (p input output : string) (q : Z) (w : World),
    fs_pathExists p w = true -> fs_pathExists p (snd (sharp_toFile input q output w)) = true;
  keeps_list : forall (p query : string) (w : World),
    fs_pathExists p w = true -> fs_pathExists p (snd (drive_files_list query w)) = true;
  keeps_get : forall (p fileId : string) (w : World),
    fs_pathExists p w = true -> fs_pathExists p (snd (drive_files_get fileId w)) = true;
  keeps_stream : forall (p fileId dest : string) (w : World),
    fs_pathExists p w = true -> fs_pathExists p (snd (drive_stream_to fileId dest w)) = true
}.

(* ================================================================== *)
(** * [src/url-parser.ts] *)
(* ================================================================== *)

Inductive InputType : Type := local | google_drive.

Record ParsedInput : Type := {
  type : InputType;
  path : string;
  folderId : option string
}.

Module InputParser.

(** The literal parts of the three regular expressions of [extractFolderId],
    in the order of the array; each is followed by [([a-zA-Z0-9-_]+)]. *)
Definition patterns : list string := ["/folders/"; "id="; "/d/"].

(** The loop [for (const pattern of patterns)] with its early [return]. *)
Fixpoint firstMatch (pats : list string) (url : string) : option string :=
  match pats with
  | [] => None
  | pattern :: rest =>
      match regex_match pattern url with
      | Some group1 => Some group1
      | None => firstMatch rest url
      end
  end.

Definition extractFolderId (url : string) : option string :=
  firstMatch patterns url.

Section Parse.
Context {P : Platform}.

Definition parse (input : string) : ParsedInput :=
  let asLocal := {| type := local; path := input; folderId := None |} in
  match URL_hostname input with
  | None => asLocal (* [new URL(input)] threw: the [catch] block is empty *)
  | Some hostname =>
      if includes hostname "drive.google.com" then
        match extractFolderId input with
        | Some fid =>
            if truthy fid
            then {| type := google_drive; path := input; folderId := Some fid |}
            else asLocal
        | None => asLocal
        end
      else asLocal
  end.

End Parse.
End InputParser.

(* ================================================================== *)
(** * Asynchronous code: state of the world, exceptions, a trace of calls *)
(* ================================================================== *)

(** One entry per call that leaves the program. *)
Inductive Event : Type :=
| EvCwd
| EvDateNow
| EvEnsureDir (p : string)
| EvPathExists (p : string)
| EvStat (p : string)
| EvReaddir (p : string)
| EvRemove (p : string)
| EvSharpMetadata (p : string)
| EvSharpToFile (input : string) (q : Z) (output : string)
| EvDriveList (query : string)
| EvDriveGet (fileId : string)
| EvDriveStream (fileId : string) (dest : string).

Section Monad.
Context {P : Platform}.

Record State : Type := mkState {
  world : World;
  trace : list Event
}.

Definition M (A : Type) : Type := State -> outcome A * State.

Definition ret {A : Type} (a : A) : M A := fun s => (Ok a, s).

Definition throw {A : Type} (e : exn) : M A := fun s => (Throw e, s).

Definition bind {A B : Type} (m : M A) (k : A -> M B) : M B :=
  fun s =>
    match m s with
    | (Ok a, s') => k a s'
    | (Throw e, s') => (Throw e, s')
    end.

(** [try { body } catch (error) { handler }] *)
Definition try_catch {A : Type} (body : M A) (handler : exn -> M A) : M A :=
  fun s =>
    match body s with
    | (Ok a, s') => (Ok a, s')
    | (Throw e, s') => handler e s'
    end.

(** [try { body } finally { cleanup }]: the cleanup runs on both exits and
    keeps the body's outcome unless it throws itself. *)
Definition try_finally {A : Type} (body : M A) (cleanup : M unit) : M A :=
  fun s =>
    match body s with
    | (r, s') =>
        match cleanup s' with
        | (Ok _, s'') => (r, s'')
        | (Throw e, s'') => (Throw e, s'')
        end
    end.

(** [for (const x of xs) { acc = body(x, acc) }]; a throw leaves the loop. *)
Definition for_of {A S : Type} (xs : list A) (body : A -> S -> M S) (acc : S) : M S :=
  (fix loop (l : list A) (a : S) {struct l} : M S :=
     match l with
     | [] => ret a
     | x :: rest => bind (body x a) (fun a' => loop rest a')
     end) xs acc.

Definition log (ev : Event) (s : State) (w : World) : State :=
  {| world := w; trace := trace s ++ [ev] |}.

(** A call that reads the world. *)
Definition reading {A : Type} (ev : Event) (f : World -> A) : M A :=
  fun s => (Ok (f (world s)), log ev s (world s)).

(** A call that reads the world and may throw. *)
Definition asking {A : Type} (ev : Event) (f : World -> outcome A) : M A :=
  fun s => (f (world s), log ev s (world s)).

(** A call that may change the world and may throw. *)
Definition acting {A : Type} (ev : Event) (f : World -> outcome A * World) : M A :=
  fun s => let (r, w) := f (world s) in (r, log ev s w).

Definition cwd : M string := reading EvCwd process_cwd.

Definition now : M Z :=
  fun s => let (t, w) := Date_now (world s) in (Ok t, log EvDateNow s w).

Definition ensureDir (p : string) : M unit := acting (EvEnsureDir p) (fs_ensureDir p).

Definition pathExists (p : string) : M bool := reading (EvPathExists p) (fs_pathExists p).

Definition stat (p : string) : M FileKind := asking (EvStat p) (fs_stat p).

Definition readdir (p : string) : M (list Dirent) := asking (EvReaddir p) (fs_readdir p).

(** [fs.readdir] on the path of a listed subdirectory: the answer is the one
    the entry carries. *)
Definition readdir_entry (p : string) (listing : outcome (list Dirent)) : M (list Dirent) :=
  asking (EvReaddir p) (fun _ => listing).

Definition remove (p : string) : M unit := acting (EvRemove p) (fs_remove p).

Definition metadata (p : string) : M Metadata := asking (EvSharpMetadata p) (sharp_metadata p).

Definition toFile (input : string) (q : Z) (output : string) : M unit :=
  acting (EvSharpToFile input q output) (sharp_toFile input q output).

End Monad.

Declare Scope js_scope.
Delimit Scope js_scope with js.
Notation "x <- m ;; k" := (bind m (fun x => k))
  (at level 61, m at next level, right associativity) : js_scope.
Notation "m ;;; k" := (bind m (fun _ => k))
  (at level 61, right associativity) : js_scope.
Local Open Scope js_scope.

(* ================================================================== *)
(** * [src/google-drive.ts] *)
(* ================================================================== *)

Record GoogleDriveService : Type := {
  initialized : bool
}.

Module GoogleDrive.
Section Service.
Context {P : Platform}.

Definition isInitialized (svc : GoogleDriveService) : bool := initialized svc.

(** The [q] parameter of [listTiffFiles]. *)
Definition listQuery (folder : string) : string :=
  "'" ++ folder ++ "' in parents and (mimeType='image/tiff' or mimeType='image/x-tiff' or name contains '.tif' or name contains '.tiff')".

Definition listTiffFiles (folder : string) : M (list GoogleDriveFile) :=
  try_catch
    (files <- acting (EvDriveList (listQuery folder)) (drive_files_list (listQuery folder)) ;;
     (* [response.data.files || []] *)
     ret (match files with Some fs => fs | None => [] end))
    (fun err => throw (JsError ("Failed to list files: " ++ to_text err))).

(** The promise [downloadFile] returns is not awaited inside its [try]: a
    failure of the stream reaches the caller as it is, a failure of
    [drive.files.get] is wrapped. *)
Definition downloadFile (fileId : string) (dest : string) : M unit :=
  try_catch
    (acting (EvDriveGet fileId) (drive_files_get fileId))
    (fun err => throw (JsError ("Failed to download file: " ++ to_text err))) ;;;
  acting (EvDriveStream fileId dest) (drive_stream_to fileId dest).

End Service.
End GoogleDrive.

(* ================================================================== *)
(** * [src/converter.ts] *)
(* ================================================================== *)

(** The fields of an [ImageConverter] instance. *)
Record ImageConverter : Type := {
  options : ConversionOptions;
  googleDriveService : option GoogleDriveService
}.

Definition zeroStats : ConversionStats :=
  {| total := 0; successful := 0; failed := 0; totalTime := 0 |}.

Section Converter.
Context {P : Platform}.
Variable this : ImageConverter.

(** ** [generateOutputPath] *)

Definition generateOutputPath (input : string) : string :=
  (* [this.options.outputDir || path.dirname(inputPath)] *)
  let dir :=
    match outputDir (options this) with
    | Some d => if truthy d then d else path_dirname input
    | None => path_dirname input
    end in
  let basename := path_basename input (NodePath.extname input) in
  path_join dir (basename ++ ".jpg").

(** ** [isValidTiffFile] *)

Definition isValidTiffFile (filePath : string) : M bool :=
  try_catch
    (stats <- stat filePath ;;
     if negb (isFile stats) then ret false
     else if negb (hasTiffExtension filePath) then ret false
     else
       md <- metadata filePath ;;
       (* [metadata.format === 'tiff'] *)
       ret (match format md with Some f => String.eqb f "tiff" | None => false end))
    (fun _ => ret false).

(** ** [convertFile] *)

Definition convertFile (input : string) : M ConversionResult :=
  startTime <- now ;;
  try_catch
    (valid <- isValidTiffFile input ;;
     (if negb valid then throw (JsError "Input file is not a valid TIFF image") else ret tt) ;;;
     let output := generateOutputPath input in
     ensureDir (path_dirname output) ;;;
     toFile input (quality (options this)) output ;;;
     endTime <- now ;;
     ret {| inputPath := input; outputPath := output; success := true;
            error := None; processingTime := endTime - startTime |})
    (fun err =>
       endTime <- now ;;
       ret {| inputPath := input; outputPath := ""; success := false;
              error := Some (message_of err); processingTime := endTime - startTime |}).

(** ** [convertFiles] *)

(** The body of the loop: [stats.successful++] or [stats.failed++]. *)
Definition countResult (result : ConversionResult) (stats : ConversionStats) : ConversionStats :=
  if success result then
    {| total := total stats; successful := successful stats + 1;
       failed := failed stats; totalTime := totalTime stats |}
  else
    {| total := total stats; successful := successful stats;
       failed := failed stats + 1; totalTime := totalTime stats |}.

Definition convertFiles (inputPaths : list string) : M ConversionStats :=
  let stats :=
    {| total := Z.of_nat (List.length inputPaths); successful := 0; failed := 0; totalTime := 0 |} in
  startTime <- now ;;
  stats <- for_of inputPaths
             (fun input stats =>
                result <- convertFile input ;;
                ret (countResult result stats))
             stats ;;
  endTime <- now ;;
  ret {| total := total stats; successful := successful stats;
         failed := failed stats; totalTime := endTime - startTime |}.

(** ** [findTiffFiles] *)

(** The non-recursive branch: one pass over the entries. *)
Definition findTiffFiles_flat (directory : string) (items : list Dirent) : list string :=
  fold_left
    (fun files item =>
       if isFile (dirent_kind item) then
         if hasTiffExtension (dirent_name item)
         then (files ++ [path_join directory (dirent_name item)])%list
         else files
       else files)
    items [].

(** The recursive branch, for one entry [item] of [directory]: what the body
    of the loop pushes onto [files].  For a subdirectory this is the call
    [this.findTiffFiles(fullPath)], which reads the subdirectory and runs the
    same loop over its entries. *)
Fixpoint findTiffFiles_item (directory : string) (item : Dirent) {struct item}
  : M (list string) :=
  let fullPath := path_join directory (dirent_name item) in
  match item with
  | DirentDirectory _ listing =>
      match listing with
      | Ok items =>
          readdir_entry fullPath (Ok items) ;;;
          for_of items
            (fun it files =>
               subFiles <- findTiffFiles_item fullPath it ;;
               ret (files ++ subFiles)%list)
            []
      | Throw e => readdir_entry fullPath (Throw e) ;;; ret []
      end
  | DirentFile n =>
      if hasTiffExtension n then ret [fullPath] else ret []
  | DirentOther _ => ret []
  end.

(** The loop of the recursive branch over the entries of [directory]. *)
Definition findTiffFiles_deep (directory : string) (items : list Dirent) : M (list string) :=
  for_of items
    (fun item files =>
       subFiles <- findTiffFiles_item directory item ;;
       ret (files ++ subFiles)%list)
    [].

Definition findTiffFiles (directory : string) : M (list string) :=
  if recursive (options this) then
    items <- readdir directory ;;
    findTiffFiles_deep directory items
  else
    items <- readdir directory ;;
    ret (findTiffFiles_flat directory items).

(** ** [processLocalPath] *)

Definition processLocalPath (input : string) : M (list string) :=
  dir <- cwd ;;
  let resolvedPath := path_resolve dir input in
  found <- pathExists resolvedPath ;;
  if negb found then throw (JsError ("Path does not exist: " ++ input))
  else
    stats <- stat resolvedPath ;;
    if isFile stats then ret [resolvedPath]
    else if isDirectory stats then findTiffFiles resolvedPath
    else ret [].

(** ** [processGoogleDriveFolder] *)

Definition serviceReady : bool :=
  match googleDriveService this with
  | Some svc => GoogleDrive.isInitialized svc
  | None => false
  end.

(** The body of the loop [for (const file of files)]. *)
Definition downloadInto (tempDir : string) (file : GoogleDriveFile)
           (downloadedFiles : list string) : M (list string) :=
  let tempPath := path_join tempDir (name file) in
  GoogleDrive.downloadFile (id file) tempPath ;;;
  ret (downloadedFiles ++ [tempPath])%list.

Definition processGoogleDriveFolder (folder : string) (tempDir : string) : M (list string) :=
  if negb serviceReady then
    throw (JsError "Google Drive service not properly initialized. Please provide valid credentials.")
  else
    files <- GoogleDrive.listTiffFiles folder ;;
    for_of files (downloadInto tempDir) [].

(** ** [processInput] *)

(** [path.join(process.cwd(), '.temp-downloads')] *)
Definition tempDirOf (dir : string) : string := path_join dir ".temp-downloads".

(** The body of the loop [for (const input of inputs)]. *)
Definition expandInput (tempDir : string) (input : string) (allFiles : list string)
  : M (list string) :=
  let parsed := InputParser.parse input in
  match type parsed with
  | google_drive =>
      match googleDriveService this with
      | None => throw (JsError "Google Drive service not initialized. Please provide credentials.")
      | Some _ =>
          (* [parsed.folderId!] *)
          let folder := match folderId parsed with Some f => f | None => "undefined" end in
          files <- processGoogleDriveFolder folder tempDir ;;
          ret (allFiles ++ files)%list
      end
  | local =>
      files <- processLocalPath (path parsed) ;;
      ret (allFiles ++ files)%list
  end.

(** The [try] block up to the end of the loop: the staging directory is
    created, then every input is expanded into [allFiles]. *)
Definition collectFiles (tempDir : string) (inputs : list string) : M (list string) :=
  ensureDir tempDir ;;;
  for_of inputs (expandInput tempDir) [].

(** The [finally] block. *)
Definition cleanup (tempDir : string) : M unit :=
  found <- pathExists tempDir ;;
  if found then remove tempDir else ret tt.

Definition processInput (inputs : list string) : M ConversionStats :=
  dir <- cwd ;;
  let tempDir := tempDirOf dir in
  try_finally
    (allFiles <- collectFiles tempDir inputs ;;
     if (Z.of_nat (List.length allFiles) =? 0)%Z then ret zeroStats
     else convertFiles allFiles)
    (cleanup tempDir).

End Converter.

(* ================================================================== *)
(** * An in-memory platform, to run the pipeline on concrete worlds *)
(* ================================================================== *)

Module Mem.

(** What a path names.  A file carries the format its header announces (none
    when [sharp] cannot read it) and whether its pixel data decodes. *)
Inductive Node : Type :=
| NFile (fmt : option string) (decodes : bool)
| NDir (entries : list Dirent)
| NOther.

Record MemWorld : Type := {
  m_cwd : string;
  (** successive readings of the clock; the last one repeats *)
  m_clock : list Z;
  m_fs : list (string * Node);
  (** the answer of the Drive listing, by query; a query with no entry fails *)
  m_listings : list (string * option (list GoogleDriveFile));
  (** file identifiers whose download fails *)
  m_unavailable : list string;
  (** paths that are in use: [fs.remove] on them fails and leaves them *)
  m_busy : list string
}.

Fixpoint lookup {A : Type} (k : string) (l : list (string * A)) : option A :=
  match l with
  | [] => None
  | (k', v) :: rest => if String.eqb k k' then Some v else lookup k rest
  end.

Definition with_fs (w : MemWorld) (fs : list (string * Node)) : MemWorld :=
  {| m_cwd := m_cwd w; m_clock := m_clock w; m_fs := fs;
     m_listings := m_listings w; m_unavailable := m_unavailable w;
     m_busy := m_busy w |}.

Definition starts_with (p s : string) : bool :=
  match strip_prefix p s with Some _ => true | None => false end.

(** Up to and after the last ["/"] of a path. *)
Fixpoint split_last (p : string) : option (string * string) :=
  match p with
  | EmptyString => None
  | String c rest =>
      match split_last rest with
      | Some (d, b) => Some (String c d, b)
      | None => if Ascii.eqb c "/" then Some (EmptyString, rest) else None
      end
  end.

Definition dirname (p : string) : string :=
  match split_last p with
  | Some (EmptyString, _) => "/"
  | Some (d, _) => d
  | None => "."
  end.

Definition basename (p ext : string) : string :=
  let b := match split_last p with Some (_, b) => b | None => p end in
  let n := (String.length b - String.length ext)%nat in
  if truthy ext && String.eqb (substring n (String.length ext) b) ext && negb (String.eqb b ext)
  then substring 0 n b else b.

(** The host of [scheme://host...] for the schemes [http] and [https]. *)
Fixpoint host_part (s : string) : string :=
  match s with
  | EmptyString => EmptyString
  | String c rest =>
      if Ascii.eqb c "/" || Ascii.eqb c "?" || Ascii.eqb c "#" || Ascii.eqb c ":"
      then EmptyString else String c (host_part rest)
  end.

Definition hostname (input : string) : option string :=
  let after :=
    match strip_prefix "https://" input with
    | Some r => Some r
    | None => strip_prefix "http://" input
    end in
  match after with
  | Some r =>
      match host_part r with
      | EmptyString => None
      | h => Some (toLowerCase h)
      end
  | None => None
  end.

Definition enoent {A : Type} (p : string) : outcome A :=
  Throw (JsError ("ENOENT: no such file or directory, " ++ p)).

Definition m_now (w : MemWorld) : Z * MemWorld :=
  match m_clock w with
  | [] => (0, w)
  | [t] => (t, w)
  | t :: later =>
      (t, {| m_cwd := m_cwd w; m_clock := later; m_fs := m_fs w;
             m_listings := m_listings w; m_unavailable := m_unavailable w;
             m_busy := m_busy w |})
  end.

Definition m_ensureDir (p : string) (w : MemWorld) : outcome unit * MemWorld :=
  match lookup p (m_fs w) with
  | Some (NDir _) => (Ok tt, w)
  | Some _ => (Throw (JsError ("EEXIST: file already exists, mkdir " ++ p)), w)
  | None => (Ok tt, with_fs w ((p, NDir []) :: m_fs w))
  end.

Definition m_pathExists (p : string) (w : MemWorld) : bool :=
  match lookup p (m_fs w) with Some _ => true | None => false end.

Definition m_stat (p : string) (w : MemWorld) : outcome FileKind :=
  match lookup p (m_fs w) with
  | Some (NFile _ _) => Ok IsFile
  | Some (NDir _) => Ok IsDirectory
  | Some NOther => Ok IsOther
  | None => enoent p
  end.

Definition m_readdir (p : string) (w : MemWorld) : outcome (list Dirent) :=
  match lookup p (m_fs w) with
  | Some (NDir entries) => Ok entries
  | Some _ => Throw (JsError ("ENOTDIR: not a directory, scandir " ++ p))
  | None => enoent p
  end.

(** [fs.remove(p)]: the path and everything below it, unless the path is
    in use. *)
Definition m_remove (p : string) (w : MemWorld) : outcome unit * MemWorld :=
  if existsb (String.eqb p) (m_busy w)
  then (Throw (JsError ("EBUSY: resource busy or locked, rmdir " ++ p)), w)
  else
    (Ok tt,
     with_fs w
       (filter (fun kv => negb (String.eqb p (fst kv) || starts_with (p ++ "/") (fst kv)))
               (m_fs w))).

Definition m_metadata (p : string) (w : MemWorld) : outcome Metadata :=
  match lookup p (m_fs w) with
  | Some (NFile (Some f) _) => Ok {| format := Some f |}
  | _ => Throw (JsError "Input file is missing or contains unsupported image format")
  end.

Definition m_toFile (input : string) (q : Z) (output : string) (w : MemWorld)
  : outcome unit * MemWorld :=
  match lookup input (m_fs w) with
  | Some (NFile (Some _) true) =>
      (Ok tt, with_fs w ((output, NFile (Some "jpeg") true) :: m_fs w))
  | _ => (Throw (JsError "Input file is missing or cannot be decoded"), w)
  end.

Definition m_list (q : string) (w : MemWorld)
  : outcome (option (list GoogleDriveFile)) * MemWorld :=
  match lookup q (m_listings w) with
  | Some files => (Ok files, w)
  | None => (Throw (JsThrown "File not found"), w)
  end.

Definition m_get (fileId : string) (w : MemWorld) : outcome unit * MemWorld :=
  if existsb (String.eqb fileId) (m_unavailable w)
  then (Throw (JsThrown "Request failed"), w)
  else (Ok tt, w).

Definition m_stream (fileId dest : string) (w : MemWorld) : outcome unit * MemWorld :=
  (Ok tt, with_fs w ((dest, NFile (Some "tiff") true) :: m_fs w)).

#[export] Instance platform : Platform := {|
  World := MemWorld;
  URL_hostname := hostname;
  path_join := fun a b => a ++ "/" ++ b;
  path_resolve := fun dir p => if starts_with "/" p then p else dir ++ "/" ++ p;
  path_dirname := dirname;
  path_basename := basename;
  process_cwd := m_cwd;
  Date_now := m_now;
  fs_ensureDir := m_ensureDir;
  fs_pathExists := m_pathExists;
  fs_stat := m_stat;
  fs_readdir := m_readdir;
  fs_remove := m_remove;
  sharp_metadata := m_metadata;
  sharp_toFile := m_toFile;
  drive_files_list := m_list;
  drive_files_get := m_get;
  drive_stream_to := m_stream
|}.

Definition start (w : MemWorld) : State := {| world := w; trace := [] |}.

(** A converter with quality 80, output beside the input, with or without a
    Drive service. *)
Definition converter (rec : bool) (svc : option GoogleDriveService) : ImageConverter :=
  {| options := {| quality := 80; outputDir := None; recursive := rec; overwrite := false |};
     googleDriveService := svc |}.

(** A working directory [/work] holding [a.tif] (a TIFF), [b.tif] (a JPEG
    under a TIFF name), [c.txt], a directory [photos] with [p.TIF],
    [notes.md] and a subdirectory [old] with [q.tiff] (a TIFF that does not
    decode), and a directory [docs] with no TIFF name in it. *)
Definition photos : list Dirent :=
  [DirentFile "p.TIF"; DirentFile "notes.md";
   DirentDirectory "old" (Ok [DirentFile "q.tiff"; DirentOther "link"])].

Definition disk : list (string * Node) :=
  [("/work", NDir [DirentFile "a.tif"; DirentFile "b.tif"; DirentFile "c.txt";
                   DirentDirectory "photos" (Ok photos);
                   DirentDirectory "docs"
                     (Ok [DirentFile "readme.md"; DirentFile "scan.tif.bak"])]);
   ("/work/a.tif", NFile (Some "tiff") true);
   ("/work/b.tif", NFile (Some "jpeg") true);
   ("/work/c.txt", NFile None false);
   ("/work/photos", NDir photos);
   ("/work/photos/p.TIF", NFile (Some "tiff") true);
   ("/work/photos/notes.md", NFile None false);
   ("/work/photos/old", NDir [DirentFile "q.tiff"; DirentOther "link"]);
   ("/work/photos/old/q.tiff", NFile (Some "tiff") false);
   ("/work/docs", NDir [DirentFile "readme.md"; DirentFile "scan.tif.bak"]);
   ("/work/docs/readme.md", NFile None false);
   ("/work/docs/scan.tif.bak", NFile (Some "tiff") true)].

Definition remoteFile (i n : string) : GoogleDriveFile :=
  {| id := i; name := n; mimeType := "image/tiff"; size := None |}.

(** The Drive folder [F1] lists two files, the second of which cannot be
    downloaded; the folder [F2] lists one file that can. *)
Definition sample : MemWorld :=
  {| m_cwd := "/work";
     m_clock := [1000; 1005; 1105; 1110; 1200; 1300];
     m_fs := disk;
     m_listings :=
       [(GoogleDrive.listQuery "F1", Some [remoteFile "id1" "r1.tif"; remoteFile "id2" "r2.tif"]);
        (GoogleDrive.listQuery "F2", Some [remoteFile "id3" "r3.tif"])];
     m_unavailable := ["id2"];
     m_busy := [] |}.

End Mem.

(* ================================================================== *)
(** * Notions the properties are stated with *)
(* ================================================================== *)

Section Notions.
Context {P : Platform}.

(** The clock reading a call to [Date.now()] gives in a state. *)
Definition clock (s : State) : Z := fst (Date_now (world s)).

(** The state a computation leaves and the outcome it has. *)
Definition after {A : Type} (m : M A) (s : State) : State := snd (m s).
Definition result {A : Type} (m : M A) (s : State) : outcome A := fst (m s).

(** The per-file outcomes of a run of [convertFiles]: [convertFile] on each
    path, in the order of the list.  [convertFiles] itself keeps only the
    counts. *)
Fixpoint conversionResults (this : ImageConverter) (inputPaths : list string)
  : M (list ConversionResult) :=
  match inputPaths with
  | [] => ret []
  | input :: rest =>
      r <- convertFile this input ;;
      rs <- conversionResults this rest ;;
      ret (r :: rs)
  end.

(** The record [convertFile] returns from its [catch] block. *)
Definition failedResult (input msg : string) (elapsed : Z) : ConversionResult :=
  {| inputPath := input; outputPath := ""; success := false;
     error := Some msg; processingTime := elapsed |}.

(** The counters after the loop of [convertFiles] has seen the outcomes [rs]. *)
Definition tally (rs : list ConversionResult) (stats : ConversionStats) : ConversionStats :=
  fold_left (fun st r => countResult r st) rs stats.

Definition failures (rs : list ConversionResult) : list ConversionResult :=
  filter (fun r => negb (success r)) rs.

Definition successes (rs : list ConversionResult) : list ConversionResult :=
  filter success rs.

Definition sumZ (l : list Z) : Z := fold_right Z.add 0 l.

(** The three checks of validation, read off a world: the path is a regular
    file, its extension is [.tif] or [.tiff], and the metadata probe reports
    the format [tiff]. *)
Definition isRegularFile (w : World) (p : string) : bool :=
  match fs_stat p w with
  | Ok k => isFile k
  | Throw _ => false
  end.

Definition probesAsTiff (w : World) (p : string) : bool :=
  match sharp_metadata p w with
  | Ok md => match format md with Some f => String.eqb f "tiff" | None => false end
  | Throw _ => false
  end.

Definition passesValidation (w : World) (p : string) : bool :=
  isRegularFile w p && hasTiffExtension p && probesAsTiff w p.

(** An entry that qualifies: a file whose lowercase extension is [.tif] or
    [.tiff]. *)
Definition qualifies (item : Dirent) : bool :=
  isFile (dirent_kind item) && hasTiffExtension (dirent_name item).

(** The files a directory expands to, as the specification words it: a
    qualifying file of the directory, or, when [deep], a file a listed
    subdirectory expands to. *)
Inductive Expands (deep : bool) : string -> list Dirent -> string -> Prop :=
| Expands_file : forall directory items n,
    In (DirentFile n) items ->
    hasTiffExtension n = true ->
    Expands deep directory items (path_join directory n)
| Expands_subdirectory : forall directory items n sub p,
    deep = true ->
    In (DirentDirectory n (Ok sub)) items ->
    Expands deep (path_join directory n) sub p ->
    Expands deep directory items p.

(** The depth-first enumeration: entries in listing order, the files of a
    subdirectory at the place of the subdirectory. *)
Fixpoint depthFirst_entry (directory : string) (item : Dirent) : list string :=
  match item with
  | DirentFile n => if hasTiffExtension n then [path_join directory n] else []
  | DirentDirectory n (Ok sub) =>
      flat_map (depthFirst_entry (path_join directory n)) sub
  | DirentDirectory _ (Throw _) => []
  | DirentOther _ => []
  end.

Definition depthFirst (directory : string) (items : list Dirent) : list string :=
  flat_map (depthFirst_entry directory) items.

(** Every directory below the listing can be read. *)
Fixpoint listable (item : Dirent) : bool :=
  match item with
  | DirentDirectory _ (Ok sub) => forallb listable sub
  | DirentDirectory _ (Throw _) => false
  | _ => true
  end.

(** Calls into the Conversion Engine show as clock readings (the first thing
    [convertFiles] and [convertFile] do) and as calls of the codec. *)
Definition codecEvent (ev : Event) : bool :=
  match ev with
  | EvSharpMetadata _ | EvSharpToFile _ _ _ => true
  | _ => false
  end.

Definition engineEvent (ev : Event) : bool :=
  match ev with
  | EvDateNow => true
  | _ => codecEvent ev
  end.

(** The calls the expansion of the inputs makes: the working directory, the
    file system, the Drive client. *)
Definition expansionEvent (ev : Event) : bool :=
  match ev with
  | EvCwd | EvEnsureDir _ | EvPathExists _ | EvStat _ | EvReaddir _
  | EvDriveList _ | EvDriveGet _ | EvDriveStream _ _ => true
  | _ => false
  end.

Definition notEngine (ev : Event) : bool := negb (engineEvent ev).

Definition anyEvent (ev : Event) : bool := true.

Definition notRemove (ev : Event) : bool :=
  match ev with
  | EvRemove _ => false
  | _ => true
  end.

(** The path [p] is not deleted between [s] and [s']. *)
Definition keeps (p : string) (s s' : State) : Prop :=
  fs_pathExists p (world s) = true -> fs_pathExists p (world s') = true.

(** [s'] continues [s] with calls that all satisfy [Q]. *)
Definition extends (Q : Event -> bool) (s s' : State) : Prop :=
  exists evs, trace s' = (trace s ++ evs)%list /\ forallb Q evs = true.

(** Every run of [m] leaves a state related to the one it started in. *)
Definition steps {A : Type} (R : State -> State -> Prop) (m : M A) : Prop :=
  forall s, R s (after m s).

End Notions.

(* ================================================================== *)
(** * Further notions: kinds of calls, and what a run leaves alone *)
(* ================================================================== *)

Section MoreNotions.
Context {P : Platform}.

(** What the Conversion Engine calls: the clock, [fs.stat], the codec,
    [fs.ensureDir]. *)
Definition conversionEvent (ev : Event) : bool :=
  match ev with
  | EvDateNow | EvStat _ | EvSharpMetadata _ | EvEnsureDir _ | EvSharpToFile _ _ _ => true
  | _ => false
  end.

(** What the expansion of a local path calls. *)
Definition localEvent (ev : Event) : bool :=
  match ev with
  | EvCwd | EvPathExists _ | EvStat _ | EvReaddir _ => true
  | _ => false
  end.

Definition driveEvent (ev : Event) : bool :=
  match ev with
  | EvDriveList _ | EvDriveGet _ | EvDriveStream _ _ => true
  | _ => false
  end.

Definition notDrive (ev : Event) : bool := negb (driveEvent ev).

(** The world is the same in [s'] as in [s]. *)
Definition sameWorld (s s' : State) : Prop := world s' = world s.

(** The converter with its [overwrite] option set to [b]. *)
Definition withOverwrite (b : bool) (this : ImageConverter) : ImageConverter :=
  {| options := {| quality := quality (options this);
                   outputDir := outputDir (options this);
                   recursive := recursive (options this);
                   overwrite := b |};
     googleDriveService := googleDriveService this |}.

(** The calls of [isValidTiffFile] on [p] in the world [w]: the metadata is
    probed only for a regular file with a TIFF extension. *)
Definition validationCalls (w : World) (p : string) : list Event :=
  EvStat p :: (if isRegularFile w p && hasTiffExtension p then [EvSharpMetadata p] else []).

(** No entry of the listing is a directory. *)
Definition noSubdirectory (items : list Dirent) : bool :=
  forallb (fun item => negb (isDirectory (dirent_kind item))) items.

(** The staged path of a remote file. *)
Definition stagedPath (tempDir : string) (file : GoogleDriveFile) : string :=
  path_join tempDir (name file).

(** The calls that fetch the files [files] into [tempDir]. *)
Definition fetchCalls (tempDir : string) (files : list GoogleDriveFile) : list Event :=
  flat_map (fun f => [EvDriveGet (id f); EvDriveStream (id f) (stagedPath tempDir f)]) files.

(** The error of the first directory, depth first, that cannot be listed. *)
Fixpoint firstListingError (item : Dirent) : option exn :=
  match item with
  | DirentDirectory _ (Throw e) => Some e
  | DirentDirectory _ (Ok sub) =>
      fold_right
        (fun it later =>
           match firstListingError it with
           | Some e => Some e
           | None => later
           end)
        None sub
  | _ => None
  end.

Definition firstListingErrorIn (items : list Dirent) : option exn :=
  fold_right
    (fun it later =>
       match firstListingError it with
       | Some e => Some e
       | None => later
       end)
    None items.

(** The [try] block of [processInput]. *)
Definition tryBlock (this : ImageConverter) (tempDir : string) (inputs : list string)
  : M ConversionStats :=
  allFiles <- collectFiles this tempDir inputs ;;
  if (Z.of_nat (List.length allFiles) =? 0)%Z then ret zeroStats
  else convertFiles this allFiles.

(** What [try { body } finally { cleanup }] gives: the outcome of the body,
    unless the cleanup throws. *)
Definition settle {A : Type} (r : outcome A) (c : outcome unit) : outcome A :=
  match c with
  | Ok _ => r
  | Throw e => Throw e
  end.

End MoreNotions.

Section PathNotions.
Context {P : Platform}.
Import NodePath.

(** One turn of the loop of [path.extname] on a character that is not a
    separator. *)
Definition scan_step (code : ascii) (i : nat) (st : ExtScan) : ExtScan :=
  let st1 :=
    if endPos st =? -1 then
      {| startDot := startDot st; startPart := startPart st; endPos := Z.of_nat i + 1;
         matchedSlash := false; preDotState := preDotState st |}
    else st in
  if Ascii.eqb code "." then
    if startDot st1 =? -1 then
      {| startDot := Z.of_nat i; startPart := startPart st1; endPos := endPos st1;
         matchedSlash := matchedSlash st1; preDotState := preDotState st1 |}
    else if negb (preDotState st1 =? 1) then
      {| startDot := startDot st1; startPart := startPart st1; endPos := endPos st1;
         matchedSlash := matchedSlash st1; preDotState := 1 |}
    else st1
  else if negb (startDot st1 =? -1) then
    {| startDot := startDot st1; startPart := startPart st1; endPos := endPos st1;
       matchedSlash := matchedSlash st1; preDotState := -1 |}
  else st1.

(** The positions of a scan state moved [off] characters to the right. *)
Definition shift (off : Z) (st : ExtScan) : ExtScan :=
  {| startDot := if startDot st =? -1 then -1 else startDot st + off;
     startPart := startPart st;
     endPos := if endPos st =? -1 then -1 else endPos st + off;
     matchedSlash := matchedSlash st;
     preDotState := preDotState st |}.

Definition scan_wf (st : ExtScan) : Prop :=
  -1 <= startDot st /\ -1 <= endPos st.

(** A name as a directory entry has it: not empty, no separator in it. *)
Definition plainName (n : string) : Prop :=
  n <> EmptyString /\ forall i, String.get i n <> Some "/"%char.

Fixpoint noSlash (s : string) : bool :=
  match s with
  | EmptyString => true
  | String c s' => negb (Ascii.eqb c "/") && noSlash s'
  end.

Definition plainNameb (n : string) : bool := truthy n && noSlash n.

(** Below [directory], every entry has a plain name and [path.join] puts it
    after the directory and a separator. *)
Fixpoint plainlyJoined (directory : string) (item : Dirent) : Prop :=
  plainNameb (dirent_name item) = true
  /\ path_join directory (dirent_name item) = directory ++ "/" ++ dirent_name item
  /\ match item with
     | DirentDirectory n (Ok sub) =>
         fold_right (fun it rest => plainlyJoined (path_join directory n) it /\ rest) True sub
     | _ => True
     end.

Definition plainlyJoinedIn (directory : string) (items : list Dirent) : Prop :=
  fold_right (fun it rest => plainlyJoined directory it /\ rest) True items.

End PathNotions.

(** A converter that writes to [/out], and a world in which the directory
    [/work/vault] holds a TIFF and a subdirectory that cannot be listed. *)
Definition Mem_toOut : ImageConverter :=
  {| options := {| quality := 80; outputDir := Some "/out"; recursive := false;
                   overwrite := false |};
     googleDriveService := None |}.

Definition Mem_vaultItems : list Dirent :=
  [DirentFile "x.tif";
   DirentDirectory "locked" (Throw (JsError "EACCES: permission denied, scandir"));
   DirentFile "y.tif"].

Definition Mem_vault : Mem.MemWorld :=
  Mem.with_fs Mem.sample (("/work/vault", Mem.NDir Mem_vaultItems) :: Mem.disk).

(** The sample world with the staging path in use, so that it cannot be
    removed; and with a regular file in the place of the staging directory,
    so that it cannot be created. *)
Definition Mem_busy : Mem.MemWorld :=
  {| Mem.m_cwd := Mem.m_cwd Mem.sample; Mem.m_clock := Mem.m_clock Mem.sample;
     Mem.m_fs := Mem.m_fs Mem.sample; Mem.m_listings := Mem.m_listings Mem.sample;
     Mem.m_unavailable := Mem.m_unavailable Mem.sample;
     Mem.m_busy := ["/work/.temp-downloads"] |}.

Definition Mem_blocked : Mem.MemWorld :=
  Mem.with_fs Mem.sample (("/work/.temp-downloads", Mem.NFile None false) :: Mem.disk).


(* ================================================================== *)
(** * Properties of the locator classifier *)
(* ================================================================== *)

Section ParserFacts.
Context {P : Platform}.
Import InputParser.

Lemma match_here_truthy (lit s cap : string) :
  match_here lit s = Some cap -> truthy cap = true.
Proof.
  unfold match_here.
  destruct (strip_prefix lit s) as [rest|]; [|discriminate].
  destruct (span_id rest) eqn:E; [discriminate|].
  intros H. injection H as <-. reflexivity.
Qed.

Lemma regex_match_truthy (lit s cap : string) :
  regex_match lit s = Some cap -> truthy cap = true.
Proof.
  induction s as [|c s IH]; simpl.
  - destruct (match_here lit "") eqn:E; [|discriminate].
    intros H. injection H as <-. eauto using match_here_truthy.
  - destruct (match_here lit (String c s)) eqn:E.
    + intros H. injection H as <-. eauto using match_here_truthy.
    + exact IH.
Qed.

Lemma firstMatch_truthy (pats : list string) (url fid : string) :
  firstMatch pats url = Some fid -> truthy fid = true.
Proof.
  induction pats as [|pat pats IH]; simpl; [discriminate|].
  destruct (regex_match pat url) eqn:E.
  - intros H. injection H as <-. eauto using regex_match_truthy.
  - exact IH.
Qed.

(** The group a pattern captures consists of characters of the class. *)
Lemma span_id_class (s : string) (i : nat) (c : ascii) :
  String.get i (span_id s) = Some c -> is_id_char c = true.
Proof.
  revert i. induction s as [|a s IH]; intros i; simpl.
  - destruct i; discriminate.
  - destruct (is_id_char a) eqn:E.
    + destruct i; simpl.
      * intros H. injection H as <-. exact E.
      * apply IH.
    + destruct i; discriminate.
Qed.

Lemma parse_path (input : string) : path (parse input) = input.
Proof.
  unfold parse.
  destruct (URL_hostname input) as [h|]; [|reflexivity].
  destruct (includes h "drive.google.com"); [|reflexivity].
  destruct (extractFolderId input) as [fid|]; [|reflexivity].
  destruct (truthy fid); reflexivity.
Qed.

(** [folderId] is present exactly when the type is [google-drive]. *)
Lemma parse_folderId_iff (input : string) :
  type (parse input) = google_drive <-> folderId (parse input) <> None.
Proof.
  unfold parse.
  destruct (URL_hostname input) as [h|]; [|simpl; split; [discriminate|congruence]].
  destruct (includes h "drive.google.com"); [|simpl; split; [discriminate|congruence]].
  destruct (extractFolderId input) as [fid|]; [|simpl; split; [discriminate|congruence]].
  destruct (truthy fid); simpl; split; try discriminate; congruence.
Qed.

Lemma parse_remote (input h fid : string) :
  URL_hostname input = Some h ->
  includes h "drive.google.com" = true ->
  extractFolderId input = Some fid ->
  parse input = {| type := google_drive; path := input; folderId := Some fid |}.
Proof.
  intros Hh Hi Hf. unfold parse. rewrite Hh, Hi, Hf.
  rewrite (firstMatch_truthy _ _ _ Hf). reflexivity.
Qed.

(** C3: when the URL host of the input contains [drive.google.com], the
    folder identifier is the group captured by the first, in the order
    [/folders/<id>], [id=<id>], [/d/<id>], of the three patterns that matches
    the input, and an input with such a match is classified as a remote
    folder with that identifier; so [https://drive.google.com/drive/folders/ABC123]
    yields [ABC123], [https://drive.google.com/open?id=XYZ] yields [XYZ] and
    [https://drive.google.com/d/QRS] yields [QRS]. *)
Theorem C3_patterns_tested_in_order :
  forall (input h : string),
    URL_hostname input = Some h ->
    includes h "drive.google.com" = true ->
    (* the three patterns, in order, the first match winning *)
    extractFolderId input =
      match regex_match "/folders/" input with
      | Some fid => Some fid
      | None =>
          match regex_match "id=" input with
          | Some fid => Some fid
          | None => regex_match "/d/" input
          end
      end
    /\ (forall fid, extractFolderId input = Some fid ->
          parse input = {| type := google_drive; path := input; folderId := Some fid |})
    /\ (input = "https://drive.google.com/drive/folders/ABC123" ->
          parse input = {| type := google_drive; path := input; folderId := Some "ABC123" |})
    /\ (input = "https://drive.google.com/open?id=XYZ" ->
          parse input = {| type := google_drive; path := input; folderId := Some "XYZ" |})
    /\ (input = "https://drive.google.com/d/QRS" ->
          parse input = {| type := google_drive; path := input; folderId := Some "QRS" |}).
Proof.
  intros input h Hh Hi.
  assert (Hall : forall fid, extractFolderId input = Some fid ->
            parse input = {| type := google_drive; path := input; folderId := Some fid |})
    by (intros fid; apply parse_remote with h; assumption).
  split; [|split; [exact Hall|]].
  - unfold extractFolderId, patterns; simpl.
    destruct (regex_match "/folders/" input); [reflexivity|].
    destruct (regex_match "id=" input); [reflexivity|].
    destruct (regex_match "/d/" input); reflexivity.
  - repeat split; intros ->; apply Hall; reflexivity.
Qed.

(** C4: an input that is not a URL, or whose host does not contain
    [drive.google.com], or whose host does but in which no pattern matches,
    is classified as local, with the input unchanged and no folder id. *)
Theorem C4_everything_else_is_local :
  forall (input : string),
    URL_hostname input = None
    \/ (exists h, URL_hostname input = Some h /\ includes h "drive.google.com" = false)
    \/ (exists h, URL_hostname input = Some h /\ includes h "drive.google.com" = true
                  /\ extractFolderId input = None) ->
    parse input = {| type := local; path := input; folderId := None |}.
Proof.
  intros input [H | [(h & Hh & Hi) | (h & Hh & Hi & Hf)]]; unfold parse.
  - rewrite H. reflexivity.
  - rewrite Hh, Hi. reflexivity.
  - rewrite Hh, Hi, Hf. reflexivity.
Qed.

(** The three cases of C4 are the only ones: every other input is remote. *)
Lemma parse_local_only_then (input : string) :
  type (parse input) = local ->
  URL_hostname input = None
  \/ (exists h, URL_hostname input = Some h /\ includes h "drive.google.com" = false)
  \/ (exists h, URL_hostname input = Some h /\ includes h "drive.google.com" = true
                /\ extractFolderId input = None).
Proof.
  unfold parse.
  destruct (URL_hostname input) as [h|] eqn:Hh; [|now left].
  destruct (includes h "drive.google.com") eqn:Hi; [|right; left; eauto].
  destruct (extractFolderId input) as [fid|] eqn:Hf; [|right; right; eauto].
  rewrite (firstMatch_truthy _ _ _ Hf). discriminate.
Qed.

End ParserFacts.

(** C3 on the in-memory platform, for the first of the three URLs. *)
Lemma C3_witness :
  InputParser.parse (P := Mem.platform) "https://drive.google.com/drive/folders/ABC123"
  = {| type := google_drive; path := "https://drive.google.com/drive/folders/ABC123";
       folderId := Some "ABC123" |}.
Proof.
  refine (proj1 (proj2 (proj2
    (C3_patterns_tested_in_order (P := Mem.platform)
       "https://drive.google.com/drive/folders/ABC123" "drive.google.com" _ _))) _);
    reflexivity.
Defined.

(** C4 on the in-memory platform: a plain file name, a URL of another host,
    and a Drive URL with no folder id in it. *)
Lemma C4_witness :
  InputParser.parse (P := Mem.platform) "photos/a.tif"
  = {| type := local; path := "photos/a.tif"; folderId := None |}.
Proof.
  apply (C4_everything_else_is_local (P := Mem.platform)). left. reflexivity.
Defined.

Example parse_other_host :
  InputParser.parse (P := Mem.platform) "https://example.org/d/QRS"
  = {| type := local; path := "https://example.org/d/QRS"; folderId := None |}.
Proof. reflexivity. Qed.

Example parse_drive_without_id :
  InputParser.parse (P := Mem.platform) "https://drive.google.com/drive/my-drive"
  = {| type := local; path := "https://drive.google.com/drive/my-drive"; folderId := None |}.
Proof. reflexivity. Qed.

(** The first pattern wins over a later one that matches further left. *)
Example parse_first_pattern_wins :
  InputParser.extractFolderId "https://drive.google.com/d/QRS/folders/ABC?id=XYZ" = Some "ABC".
Proof. reflexivity. Qed.

(* ================================================================== *)
(** * Properties of the Conversion Engine *)
(* ================================================================== *)

(** Unfolds the monad down to the calls of the platform. *)
Ltac unfold_monad :=
  unfold result, after, clock, bind, ret, throw, try_catch, try_finally, now, cwd,
    ensureDir, pathExists, stat, readdir, readdir_entry, remove, metadata, toFile,
    reading, asking, acting, log in *.

Section MonadFacts.
Context {P : Platform}.

Lemma run_bind {A B : Type} {m : M A} {k : A -> M B} {s s' : State} {a : A} :
  m s = (Ok a, s') -> bind m k s = k a s'.
Proof. intros H. unfold bind. rewrite H. reflexivity. Qed.

Lemma run_bind_throw {A B : Type} {m : M A} {k : A -> M B} {s s' : State} {e : exn} :
  m s = (Throw e, s') -> bind m k s = (Throw e, s').
Proof. intros H. unfold bind. rewrite H. reflexivity. Qed.

Lemma run_cwd (s : State) :
  cwd s = (Ok (process_cwd (world s)), log EvCwd s (world s)).
Proof. reflexivity. Qed.

Lemma run_now (s : State) : now s = (Ok (clock s), after now s).
Proof. unfold after, clock, now. destruct (Date_now (world s)); reflexivity. Qed.

Lemma run_pathExists (p : string) (s : State) :
  pathExists p s = (Ok (fs_pathExists p (world s)), log (EvPathExists p) s (world s)).
Proof. reflexivity. Qed.

Lemma run_stat (p : string) (s : State) :
  stat p s = (fs_stat p (world s), log (EvStat p) s (world s)).
Proof. reflexivity. Qed.

Lemma run_readdir (p : string) (s : State) :
  readdir p s = (fs_readdir p (world s), log (EvReaddir p) s (world s)).
Proof. reflexivity. Qed.

Lemma run_remove (p : string) (s : State) :
  remove p s
  = (fst (fs_remove p (world s)), log (EvRemove p) s (snd (fs_remove p (world s)))).
Proof. unfold remove, acting. destruct (fs_remove p (world s)); reflexivity. Qed.

Lemma run_ensureDir (p : string) (s : State) :
  ensureDir p s
  = (fst (fs_ensureDir p (world s)), log (EvEnsureDir p) s (snd (fs_ensureDir p (world s)))).
Proof. unfold ensureDir, acting. destruct (fs_ensureDir p (world s)); reflexivity. Qed.

Lemma for_of_cons {A S : Type} (x : A) (rest : list A) (body : A -> S -> M S) (acc : S) :
  for_of (x :: rest) body acc = bind (body x acc) (fun a' => for_of rest body a').
Proof. reflexivity. Qed.

Lemma for_of_nil {A S : Type} (body : A -> S -> M S) (acc : S) :
  for_of [] body acc = ret acc.
Proof. reflexivity. Qed.

(** A loop over [pre ++ x :: post] whose body throws at [x], after the
    entries of [pre] went through, throws what the body throws and does not
    look at [post]. *)
Lemma for_of_throws {A S : Type} (body : A -> S -> M S) (pre post : list A) (x : A)
      (acc acc' : S) (s s1 s2 : State) (e : exn) :
  for_of pre body acc s = (Ok acc', s1) ->
  body x acc' s1 = (Throw e, s2) ->
  for_of (pre ++ x :: post) body acc s = (Throw e, s2).
Proof.
  revert acc s. induction pre as [|y pre IH]; intros acc s Hpre Hx.
  - rewrite for_of_nil in Hpre. unfold ret in Hpre. injection Hpre as -> ->.
    simpl app. rewrite for_of_cons. apply run_bind_throw. exact Hx.
  - simpl app. rewrite for_of_cons in *. unfold bind in *.
    destruct (body y acc s) as [[a|e'] s'].
    + apply IH; assumption.
    + discriminate.
Qed.

End MonadFacts.

Section EngineFacts.
Context {P : Platform}.
Variable this : ImageConverter.

(** Validation reads the world and answers the conjunction of the three
    checks; whatever throws inside it is caught. *)
Lemma isValidTiffFile_run (p : string) (s : State) :
  result (isValidTiffFile p) s = Ok (passesValidation (world s) p)
  /\ world (after (isValidTiffFile p) s) = world s.
Proof.
  unfold isValidTiffFile, passesValidation, isRegularFile, probesAsTiff.
  unfold_monad. simpl.
  destruct (fs_stat p (world s)) as [k|e]; simpl; [|split; reflexivity].
  destruct (isFile k); simpl; [|split; reflexivity].
  destruct (hasTiffExtension p); simpl; [|split; reflexivity].
  destruct (sharp_metadata p (world s)) as [md|e]; simpl; split; reflexivity.
Qed.

Lemma isValidTiffFile_eq (p : string) (s : State) :
  isValidTiffFile p s = (Ok (passesValidation (world s) p), after (isValidTiffFile p) s).
Proof.
  destruct (isValidTiffFile_run p s) as [H _].
  unfold result, after in *. destruct (isValidTiffFile p s); simpl in *. congruence.
Qed.

(** [convertFile] case by case. *)
Lemma convertFile_cases (input : string) (s : State) :
  let w1 := snd (Date_now (world s)) in
  let out := generateOutputPath this input in
  let mk := fs_ensureDir (path_dirname out) w1 in
  let enc := sharp_toFile input (quality (options this)) out (snd mk) in
  exists r,
    result (convertFile this input) s = Ok r
    /\ inputPath r = input
    /\ (passesValidation w1 input = false ->
        exists t, r = failedResult input "Input file is not a valid TIFF image" t)
    /\ (passesValidation w1 input = true -> forall e, fst mk = Throw e ->
        exists t, r = failedResult input (message_of e) t)
    /\ (passesValidation w1 input = true -> fst mk = Ok tt -> forall e, fst enc = Throw e ->
        exists t, r = failedResult input (message_of e) t)
    /\ (passesValidation w1 input = true -> fst mk = Ok tt -> fst enc = Ok tt ->
        exists t, r = {| inputPath := input; outputPath := out; success := true;
                         error := None; processingTime := t |}).
Proof.
  intros w1 out mk enc. subst w1 out mk enc.
  unfold result, convertFile.
  unfold bind at 1. unfold now at 1.
  destruct (Date_now (world s)) as [t0 w1] eqn:Hnow. simpl.
  unfold try_catch, bind at 1.
  rewrite isValidTiffFile_eq. simpl.
  pose proof (isValidTiffFile_run input (log EvDateNow s w1)) as [_ Hw]. simpl in Hw.
  set (s1 := after (isValidTiffFile input) _) in *.
  destruct (passesValidation w1 input) eqn:Hv; simpl.
  - (* valid *)
    unfold_monad. simpl. rewrite Hw.
    destruct (fs_ensureDir (path_dirname (generateOutputPath this input)) w1)
      as [[[]|e1] w2] eqn:Hmk; simpl.
    + destruct (sharp_toFile input (quality (options this)) (generateOutputPath this input) w2)
        as [[[]|e2] w3] eqn:Henc; simpl.
      * destruct (Date_now w3) as [t1 w4]. simpl.
        eexists. repeat split; try discriminate; eauto.
      * destruct (Date_now w3) as [t1 w4]. simpl.
        eexists. repeat split; try discriminate; eauto.
        intros _ _ e He. injection He as <-. eexists. reflexivity.
    + destruct (Date_now w2) as [t1 w3]. simpl.
      eexists. repeat split; try discriminate; eauto.
      intros _ e He. injection He as <-. eexists. reflexivity.
  - (* validation failed *)
    unfold_monad. simpl. rewrite Hw.
    destruct (Date_now w1) as [t1 w2]. simpl.
    eexists. repeat split; try discriminate; eauto.
    intros _. eexists. reflexivity.
Qed.

Lemma convertFile_returns (input : string) (s : State) :
  exists r, convertFile this input s = (Ok r, after (convertFile this input) s)
            /\ inputPath r = input.
Proof.
  destruct (convertFile_cases input s) as (r & Hr & Hin & _).
  exists r. split; [|exact Hin].
  unfold result, after in *. destruct (convertFile this input s); simpl in *. congruence.
Qed.

(** C9: [convertFile] never throws.  A path that is not a regular file, has
    no [.tif]/[.tiff] extension or does not probe as TIFF gives a failed
    outcome with the validation message and an empty output path; an error of
    the output directory or of the codec gives a failed outcome with that
    error's message and an empty output path; otherwise the outcome succeeds
    with the generated output path. *)
Theorem C9_convertFile_never_throws :
  forall (input : string) (s : State),
    let w1 := snd (Date_now (world s)) in
    let out := generateOutputPath this input in
    let mk := fs_ensureDir (path_dirname out) w1 in
    let enc := sharp_toFile input (quality (options this)) out (snd mk) in
    exists r,
      result (convertFile this input) s = Ok r
      /\ inputPath r = input
      /\ (success r = false -> outputPath r = "" /\ exists msg, error r = Some msg)
      /\ (success r = true -> outputPath r = out /\ error r = None)
      /\ (isRegularFile w1 input = false \/ hasTiffExtension input = false
          \/ probesAsTiff w1 input = false ->
          success r = false /\ outputPath r = ""
          /\ error r = Some "Input file is not a valid TIFF image")
      /\ (passesValidation w1 input = true ->
          forall e, fst mk = Throw e \/ (fst mk = Ok tt /\ fst enc = Throw e) ->
          success r = false /\ outputPath r = "" /\ error r = Some (message_of e))
      /\ (passesValidation w1 input = true -> fst mk = Ok tt -> fst enc = Ok tt ->
          success r = true /\ outputPath r = out).
Proof.
  intros input s w1 out mk enc.
  destruct (convertFile_cases input s) as (r & Hr & Hin & Hinv & Hmk & Henc & Hok).
  fold w1 out mk enc in Hinv, Hmk, Henc, Hok.
  exists r. split; [exact Hr|]. split; [exact Hin|].
  assert (Hcase : (exists m t, r = failedResult input m t)
                  \/ (exists t, r = {| inputPath := input; outputPath := out; success := true;
                                       error := None; processingTime := t |})).
  { destruct (passesValidation w1 input) eqn:Hv.
    - destruct (fst mk) as [[]|e1] eqn:E1.
      + destruct (fst enc) as [[]|e2] eqn:E2.
        * right. apply Hok; reflexivity.
        * left. destruct (Henc eq_refl eq_refl e2 eq_refl) as [t ->]. eauto.
      + left. destruct (Hmk eq_refl e1 eq_refl) as [t ->]. eauto.
    - left. destruct (Hinv eq_refl) as [t ->]. eauto. }
  split.
  { destruct Hcase as [(m & t & ->) | (t & ->)]; simpl; [|discriminate].
    intros _. split; [reflexivity | eexists; reflexivity]. }
  split.
  { destruct Hcase as [(m & t & ->) | (t & ->)]; simpl; [discriminate|].
    intros _. split; reflexivity. }
  split.
  { intros H. destruct Hinv as [t ->]; [|repeat split].
    unfold passesValidation. destruct H as [-> | [-> | ->]];
      rewrite ?andb_false_r; reflexivity. }
  split.
  { intros Hv e [He | [Hm He]].
    - destruct (Hmk Hv e He) as [t ->]. repeat split.
    - destruct (Henc Hv Hm e He) as [t ->]. repeat split. }
  intros Hv Hm He. destruct (Hok Hv Hm He) as [t ->]. split; reflexivity.
Qed.

End EngineFacts.

Section BatchFacts.
Context {P : Platform}.
Variable this : ImageConverter.

Lemma tally_counts (rs : list ConversionResult) (stats : ConversionStats) :
  total (tally rs stats) = total stats
  /\ successful (tally rs stats) = successful stats + Z.of_nat (List.length (successes rs))
  /\ failed (tally rs stats) = failed stats + Z.of_nat (List.length (failures rs))
  /\ totalTime (tally rs stats) = totalTime stats.
Proof.
  revert stats. induction rs as [|r rs IH]; intros stats; simpl.
  - repeat split; lia.
  - destruct (IH (countResult r stats)) as (Ht & Hs & Hf & Hd).
    unfold tally in *. rewrite Ht, Hs, Hf, Hd.
    unfold countResult, successes, failures. simpl.
    destruct (success r); simpl; repeat split; lia.
Qed.

Lemma successes_failures (rs : list ConversionResult) :
  (List.length (successes rs) + List.length (failures rs) = List.length rs)%nat.
Proof.
  induction rs as [|r rs IH]; simpl; [reflexivity|].
  unfold successes, failures in *. simpl.
  destruct (success r); simpl; lia.
Qed.

(** The loop of [convertFiles] visits every path in order, never stops
    early, and folds the outcomes of [convertFile] into the counters. *)
Lemma convert_loop (inputPaths : list string) (stats : ConversionStats) (s : State) :
  exists rs,
    conversionResults this inputPaths s
      = (Ok rs, after (conversionResults this inputPaths) s)
    /\ map inputPath rs = inputPaths
    /\ for_of inputPaths
         (fun input st => r <- convertFile this input ;; ret (countResult r st)) stats s
       = (Ok (tally rs stats), after (conversionResults this inputPaths) s).
Proof.
  revert stats s. induction inputPaths as [|input rest IH]; intros stats s.
  - exists []. repeat split.
  - destruct (convertFile_returns this input s) as (r & Hr & Hin).
    destruct (IH (countResult r stats) (after (convertFile this input) s))
      as (rs & Hrs & Hmap & Hloop).
    exists (r :: rs).
    assert (Hafter : after (conversionResults this (input :: rest)) s
                     = after (conversionResults this rest) (after (convertFile this input) s)).
    { unfold after at 1. simpl. unfold bind at 1. rewrite Hr.
      unfold bind at 1. rewrite Hrs. reflexivity. }
    rewrite Hafter. repeat split.
    + simpl. unfold bind at 1. rewrite Hr. unfold bind at 1. rewrite Hrs. reflexivity.
    + simpl. congruence.
    + simpl. unfold bind at 1. unfold bind at 1. rewrite Hr. simpl.
      unfold ret at 1. exact Hloop.
Qed.

(** [convertFiles] in terms of the outcomes of its loop. *)
Lemma convertFiles_run (inputPaths : list string) (s : State) :
  let s1 := after now s in
  let s2 := after (conversionResults this inputPaths) s1 in
  exists rs,
    result (conversionResults this inputPaths) s1 = Ok rs
    /\ map inputPath rs = inputPaths
    /\ convertFiles this inputPaths s
       = (Ok {| total := Z.of_nat (List.length inputPaths);
                successful := Z.of_nat (List.length (successes rs));
                failed := Z.of_nat (List.length (failures rs));
                totalTime := clock s2 - clock s |},
          after now s2).
Proof.
  intros s1 s2.
  destruct (convert_loop inputPaths
              {| total := Z.of_nat (List.length inputPaths); successful := 0;
                 failed := 0; totalTime := 0 |} s1) as (rs & Hrs & Hmap & Hloop).
  exists rs. split; [unfold result; rewrite Hrs; reflexivity|]. split; [exact Hmap|].
  unfold convertFiles. unfold bind at 1.
  assert (Hnow : forall st, now st = (Ok (clock st), after now st)).
  { intros st. unfold after, clock, now. destruct (Date_now (world st)); reflexivity. }
  rewrite (Hnow s). fold s1. unfold bind at 1. rewrite Hloop. fold s2.
  unfold bind at 1. rewrite (Hnow s2). unfold ret.
  destruct (tally_counts rs
              {| total := Z.of_nat (List.length inputPaths); successful := 0;
                 failed := 0; totalTime := 0 |}) as (Ht & Hs & Hf & _).
  rewrite Ht, Hs, Hf. simpl. reflexivity.
Qed.

(** C1: [convertFiles] on [K] paths of which [F] give a failed outcome
    returns, without throwing, [total = K], [failed = F] and
    [successful = K - F]; the loop produces one outcome per path, in order. *)
Theorem C1_convertFiles_counts_every_item :
  forall (inputPaths : list string) (s : State),
    exists (results : list ConversionResult) (stats : ConversionStats),
      result (conversionResults this inputPaths) (after now s) = Ok results
      /\ map inputPath results = inputPaths
      /\ result (convertFiles this inputPaths) s = Ok stats
      /\ total stats = Z.of_nat (List.length inputPaths)
      /\ failed stats = Z.of_nat (List.length (failures results))
      /\ successful stats
         = Z.of_nat (List.length inputPaths) - Z.of_nat (List.length (failures results)).
Proof.
  intros inputPaths s.
  destruct (convertFiles_run inputPaths s) as (rs & Hrs & Hmap & Hrun).
  eexists rs, _. split; [exact Hrs|]. split; [exact Hmap|].
  split; [unfold result; rewrite Hrun; reflexivity|]. simpl.
  repeat split.
  pose proof (successes_failures rs) as Hlen.
  rewrite <- Hmap at 1. rewrite length_map. lia.
Qed.

(** C2, as the code has it: [totalTime] is the wall-clock time of the whole
    loop, the clock read after the last file minus the clock read before the
    first; the per-file [processingTime] values are not summed. *)
Theorem C2_totalTime_is_elapsed_wall_clock :
  forall (inputPaths : list string) (s : State),
    exists stats : ConversionStats,
      result (convertFiles this inputPaths) s = Ok stats
      /\ totalTime stats
         = clock (after (conversionResults this inputPaths) (after now s)) - clock s.
Proof.
  intros inputPaths s.
  destruct (convertFiles_run inputPaths s) as (rs & _ & _ & Hrun).
  eexists. split; [unfold result; rewrite Hrun; reflexivity|]. reflexivity.
Qed.

End BatchFacts.

(** C2 as stated fails: with the clock reading 1000, 1005, 1105, 1110, one
    file takes 100 ms and the run reports 110 ms. *)
Lemma C2_counterexample :
  exists (results : list ConversionResult) (stats : ConversionStats),
    result (conversionResults (Mem.converter false None) ["/work/a.tif"])
           (after now (Mem.start Mem.sample)) = Ok results
    /\ result (convertFiles (Mem.converter false None) ["/work/a.tif"])
              (Mem.start Mem.sample) = Ok stats
    /\ sumZ (map processingTime results) = 100
    /\ totalTime stats = 110
    /\ totalTime stats <> sumZ (map processingTime results).
Proof.
  eexists _, _. split; [reflexivity|]. split; [reflexivity|].
  split; [reflexivity|]. split; [reflexivity|]. discriminate.
Qed.

(** C9 on the sample world: a JPEG under a TIFF name fails validation, a TIFF
    whose data does not decode fails in the codec, a sound TIFF succeeds. *)
Lemma C9_witness :
  exists r,
    result (convertFile (Mem.converter false None) "/work/b.tif") (Mem.start Mem.sample) = Ok r
    /\ success r = false /\ outputPath r = ""
    /\ error r = Some "Input file is not a valid TIFF image".
Proof.
  destruct (C9_convertFile_never_throws (Mem.converter false None) "/work/b.tif"
              (Mem.start Mem.sample)) as (r & Hr & _ & _ & _ & Hval & _).
  exists r. split; [exact Hr|]. apply Hval. right. right. reflexivity.
Defined.

Example convertFile_codec_error :
  result (convertFile (Mem.converter false None) "/work/photos/old/q.tiff")
         (Mem.start Mem.sample)
  = Ok {| inputPath := "/work/photos/old/q.tiff"; outputPath := ""; success := false;
          error := Some "Input file is missing or cannot be decoded"; processingTime := 5 |}.
Proof. reflexivity. Qed.

Example convertFile_success :
  result (convertFile (Mem.converter false None) "/work/a.tif") (Mem.start Mem.sample)
  = Ok {| inputPath := "/work/a.tif"; outputPath := "/work/a.jpg"; success := true;
          error := None; processingTime := 5 |}.
Proof. reflexivity. Qed.

Example convertFiles_sample :
  result (convertFiles (Mem.converter false None)
            ["/work/a.tif"; "/work/b.tif"; "/work/photos/old/q.tiff"; "/nowhere.tif"])
         (Mem.start Mem.sample)
  = Ok {| total := 4; successful := 1; failed := 3; totalTime := 300 |}.
Proof. reflexivity. Qed.

(* ================================================================== *)
(** * Properties of the Local Expander *)
(* ================================================================== *)

Section ExpanderFacts.
Context {P : Platform}.
Variable this : ImageConverter.

(** Induction over a listing and the listings below it. *)
Lemma Dirent_tree_ind (Q : Dirent -> Prop) :
  (forall n, Q (DirentFile n)) ->
  (forall n, Q (DirentOther n)) ->
  (forall n e, Q (DirentDirectory n (Throw e))) ->
  (forall n items, Forall Q items -> Q (DirentDirectory n (Ok items))) ->
  forall d, Q d.
Proof.
  intros Hfile Hother Hthrow Hdir.
  fix IH 1. intros [n | n [items | e] | n].
  - apply Hfile.
  - apply Hdir. induction items as [|d items IHitems]; constructor.
    + apply IH.
    + exact IHitems.
  - apply Hthrow.
  - apply Hother.
Qed.

(** A loop whose body appends, to the files gathered so far, files found
    without touching the world. *)
Lemma gather_loop (f : Dirent -> M (list string)) (g : Dirent -> list string)
      (items : list Dirent) :
  Forall (fun it => forall s, result (f it) s = Ok (g it) /\ world (after (f it) s) = world s)
         items ->
  forall (files : list string) (s : State),
    let m := for_of items (fun it fs => sub <- f it ;; ret (fs ++ sub)%list) files in
    result m s = Ok (files ++ flat_map g items)%list /\ world (after m s) = world s.
Proof.
  induction 1 as [|it items Hit _ IH]; intros files s m; subst m.
  - simpl. unfold result, after, ret. simpl. rewrite app_nil_r. split; reflexivity.
  - rewrite for_of_cons. destruct (Hit s) as [Hr Hw].
    unfold result, after in *.
    destruct (f it s) as [o s1] eqn:Hf. simpl in Hr, Hw. subst o.
    destruct (IH (files ++ g it)%list s1) as [Hr' Hw'].
    unfold result, after in Hr', Hw'. rewrite <- app_assoc in Hr'.
    unfold bind. rewrite Hf. unfold ret at 1.
    split; [exact Hr' | transitivity (world s1); [exact Hw' | exact Hw]].
Qed.

(** One entry of a listing whose subdirectories can all be read contributes
    its depth-first enumeration. *)
Lemma findTiffFiles_item_run (item : Dirent) :
  listable item = true ->
  forall (directory : string) (s : State),
    result (findTiffFiles_item directory item) s = Ok (depthFirst_entry directory item)
    /\ world (after (findTiffFiles_item directory item) s) = world s.
Proof.
  induction item as [n | n | n e | n items IH] using Dirent_tree_ind;
    intros Hl directory s; simpl in *.
  - destruct (hasTiffExtension n); split; reflexivity.
  - split; reflexivity.
  - discriminate.
  - assert (Hall : Forall (fun it => forall s0,
               result (findTiffFiles_item (path_join directory n) it) s0
                 = Ok (depthFirst_entry (path_join directory n) it)
               /\ world (after (findTiffFiles_item (path_join directory n) it) s0) = world s0)
             items).
    { rewrite Forall_forall in *. intros it Hin s0. apply IH; [exact Hin|].
      rewrite forallb_forall in Hl. apply Hl. exact Hin. }
    pose proof (gather_loop _ _ _ Hall [] (log (EvReaddir (path_join directory n)) s (world s)))
      as [Hr Hw].
    unfold result, after in *. unfold bind at 1. unfold readdir_entry, asking. simpl in *.
    split; [exact Hr | exact Hw].
Qed.

Lemma findTiffFiles_deep_run (directory : string) (items : list Dirent) (s : State) :
  forallb listable items = true ->
  result (findTiffFiles_deep directory items) s = Ok (depthFirst directory items)
  /\ world (after (findTiffFiles_deep directory items) s) = world s.
Proof.
  intros Hl. unfold findTiffFiles_deep, depthFirst.
  refine (gather_loop (findTiffFiles_item directory) (depthFirst_entry directory) items _ [] s).
  rewrite Forall_forall. intros it Hin s0. apply findTiffFiles_item_run.
  rewrite forallb_forall in Hl. apply Hl. exact Hin.
Qed.

(** The non-recursive pass keeps the qualifying entries, in listing order. *)
Lemma findTiffFiles_flat_filter (directory : string) (items : list Dirent) :
  findTiffFiles_flat directory items
  = map (fun item => path_join directory (dirent_name item)) (filter qualifies items).
Proof.
  unfold findTiffFiles_flat.
  assert (H : forall acc,
    fold_left
      (fun files item =>
         if isFile (dirent_kind item) then
           if hasTiffExtension (dirent_name item)
           then (files ++ [path_join directory (dirent_name item)])%list
           else files
         else files) items acc
    = (acc ++ map (fun item => path_join directory (dirent_name item))
                  (filter qualifies items))%list).
  { induction items as [|it items IH]; intros acc; simpl.
    - rewrite app_nil_r. reflexivity.
    - rewrite IH. unfold qualifies.
      destruct (isFile (dirent_kind it)); simpl; [|reflexivity].
      destruct (hasTiffExtension (dirent_name it)); simpl; [|reflexivity].
      rewrite <- app_assoc. reflexivity. }
  apply (H []).
Qed.

Lemma qualifies_file (item : Dirent) :
  qualifies item = true ->
  exists n, item = DirentFile n /\ hasTiffExtension n = true.
Proof.
  unfold qualifies. destruct item as [n | n l | n]; simpl; try discriminate.
  intros H. exists n. split; [reflexivity | exact H].
Qed.

Lemma flat_expands (directory : string) (items : list Dirent) (p : string) :
  In p (map (fun item => path_join directory (dirent_name item)) (filter qualifies items))
  <-> Expands false directory items p.
Proof.
  split.
  - rewrite in_map_iff. intros (it & <- & Hin).
    apply filter_In in Hin as [Hin Hq].
    destruct (qualifies_file _ Hq) as (n & -> & Hext).
    apply Expands_file; assumption.
  - intros H. inversion H as [d its n Hin Hext | d its n sub q Hdeep]; subst; [|discriminate].
    rewrite in_map_iff. exists (DirentFile n). split; [reflexivity|].
    apply filter_In. split; [exact Hin|]. exact Hext.
Qed.

Lemma depthFirst_expands (items : list Dirent) :
  forall (directory p : string),
    In p (depthFirst directory items) <-> Expands true directory items p.
Proof.
  assert (Hentry : forall item directory p,
            In p (depthFirst_entry directory item) ->
            forall items', In item items' -> Expands true directory items' p).
  { induction item as [n | n | n e | n sub IH] using Dirent_tree_ind;
      intros directory p Hp items' Hin; simpl in Hp.
    - destruct (hasTiffExtension n) eqn:E; [|contradiction].
      destruct Hp as [<- | []]. apply Expands_file; assumption.
    - contradiction.
    - contradiction.
    - apply in_flat_map in Hp as (it & Hit & Hp).
      apply Expands_subdirectory with n sub; [reflexivity | exact Hin |].
      rewrite Forall_forall in IH. apply (IH it Hit _ _ Hp). exact Hit. }
  intros directory p. split.
  - unfold depthFirst. intros Hp. apply in_flat_map in Hp as (it & Hit & Hp).
    eapply Hentry; eassumption.
  - induction 1 as [d its n Hin Hext | d its n sub q _ Hin _ IH].
    + unfold depthFirst. apply in_flat_map. exists (DirentFile n).
      split; [exact Hin|]. simpl. rewrite Hext. left. reflexivity.
    + unfold depthFirst. apply in_flat_map. exists (DirentDirectory n (Ok sub)).
      split; [exact Hin|]. exact IH.
Qed.

(** C5: for an existing path, expansion of a regular file returns that one
    resolved path whatever its extension; expansion of a directory that can
    be listed returns the entries that are files with extension [.tif] or
    [.tiff] (case ignored), together with, depth first, those of the
    subdirectories if the [recursive] option is set and every directory
    below can be listed, and with nothing of the subdirectories if the
    option is not set. *)
Theorem C5_local_expansion :
  forall (input : string) (s : State),
    let resolved := path_resolve (process_cwd (world s)) input in
    let deep := recursive (options this) in
    fs_pathExists resolved (world s) = true ->
    (fs_stat resolved (world s) = Ok IsFile ->
     result (processLocalPath this input) s = Ok [resolved])
    /\ (forall items,
          fs_stat resolved (world s) = Ok IsDirectory ->
          fs_readdir resolved (world s) = Ok items ->
          (deep = true -> forallb listable items = true) ->
          exists files,
            result (processLocalPath this input) s = Ok files
            /\ (forall p, In p files <-> Expands deep resolved items p)
            /\ files = (if deep then depthFirst resolved items
                        else map (fun item => path_join resolved (dirent_name item))
                                 (filter qualifies items))).
Proof.
  intros input s resolved deep Hex.
  assert (Hhead : forall k : FileKind,
            fs_stat resolved (world s) = Ok k ->
            processLocalPath this input s
            = (if isFile k then ret [resolved]
               else if isDirectory k then findTiffFiles this resolved
               else ret [])
                (log (EvStat resolved)
                     (log (EvPathExists resolved) (log EvCwd s (world s)) (world s))
                     (world s))).
  { intros k Hst. unfold processLocalPath.
    rewrite (run_bind (run_cwd s)). fold resolved.
    rewrite (run_bind (run_pathExists resolved _)). cbn [world log].
    rewrite Hex. cbn [negb].
    erewrite run_bind; [reflexivity|].
    rewrite run_stat. cbn [world log]. rewrite Hst. reflexivity. }
  split.
  - intros Hst. unfold result. rewrite (Hhead _ Hst). reflexivity.
  - intros items Hst Hrd Hl.
    assert (Hrun : result (processLocalPath this input) s
                   = Ok (if deep then depthFirst resolved items
                         else map (fun item => path_join resolved (dirent_name item))
                                  (filter qualifies items))).
    { unfold result. rewrite (Hhead _ Hst). cbn [isFile isDirectory].
      unfold findTiffFiles. fold deep.
      destruct deep eqn:Hdeep.
      - erewrite run_bind; [|rewrite run_readdir; cbn [world log]; rewrite Hrd; reflexivity].
        apply findTiffFiles_deep_run. apply Hl. reflexivity.
      - erewrite run_bind; [|rewrite run_readdir; cbn [world log]; rewrite Hrd; reflexivity].
        unfold ret. cbn [fst]. rewrite findTiffFiles_flat_filter. reflexivity. }
    eexists. split; [exact Hrun|]. split; [|reflexivity].
    intros p. destruct deep.
    + apply depthFirst_expands.
    + apply flat_expands.
Qed.

End ExpanderFacts.

(** C5 on the sample world: [c.txt] named directly is returned as it is; the
    directory [photos] gives [p.TIF] alone without the option and [p.TIF]
    then [old/q.tiff] with it. *)
Lemma C5_witness :
  result (processLocalPath (Mem.converter true None) "c.txt") (Mem.start Mem.sample)
    = Ok ["/work/c.txt"]
  /\ exists files,
       result (processLocalPath (Mem.converter true None) "photos") (Mem.start Mem.sample)
         = Ok files
       /\ files = ["/work/photos/p.TIF"; "/work/photos/old/q.tiff"].
Proof.
  split.
  - apply (C5_local_expansion (Mem.converter true None) "c.txt" (Mem.start Mem.sample));
      reflexivity.
  - destruct (proj2 (C5_local_expansion (Mem.converter true None) "photos"
                       (Mem.start Mem.sample) eq_refl) Mem.photos eq_refl eq_refl
                    (fun _ => eq_refl)) as (files & Hr & _ & Hf).
    exists files. split; [exact Hr | exact Hf].
Defined.

(** C5 as stated fails: [/work/vault] exists and is a directory that can be
    listed, but one of its subdirectories cannot; with the [recursive] option
    the expansion returns no list at all, it throws. *)
Lemma C5_counterexample :
  let s := Mem.start Mem_vault in
  fs_pathExists "/work/vault" (world s) = true
  /\ fs_stat "/work/vault" (world s) = Ok IsDirectory
  /\ fs_readdir "/work/vault" (world s) = Ok Mem_vaultItems
  /\ result (processLocalPath (Mem.converter true None) "vault") s
     = Throw (JsError "EACCES: permission denied, scandir")
  /\ ~ (exists files,
          result (processLocalPath (Mem.converter true None) "vault") s = Ok files
          /\ forall p, In p files
                       <-> Expands (P := Mem.platform) true "/work/vault" Mem_vaultItems p).
Proof.
  intros s.
  assert (Hthrows : result (processLocalPath (Mem.converter true None) "vault") s
                    = Throw (JsError "EACCES: permission denied, scandir"))
    by (vm_compute; reflexivity).
  split; [reflexivity|]. split; [reflexivity|]. split; [reflexivity|].
  split; [exact Hthrows|].
  intros (files & H & _). rewrite Hthrows in H. discriminate H.
Qed.

(** With the option, a subdirectory that cannot be read makes the expansion
    throw; without it the subdirectory is not looked at. *)
Example expansion_unreadable_subdirectory :
  let items := [DirentFile "x.tif";
                DirentDirectory "locked" (Throw (JsError "EACCES: permission denied"))] in
  result (findTiffFiles_deep (P := Mem.platform) "/d" items) (Mem.start Mem.sample)
    = Throw (JsError "EACCES: permission denied")
  /\ findTiffFiles_flat (P := Mem.platform) "/d" items = ["/d/x.tif"].
Proof. split; reflexivity. Qed.

Example expansion_not_recursive :
  result (processLocalPath (Mem.converter false None) "photos") (Mem.start Mem.sample)
  = Ok ["/work/photos/p.TIF"].
Proof. reflexivity. Qed.

(* ================================================================== *)
(** * What a run does to the world, step by step *)
(* ================================================================== *)

(** A relation [R] between states that every call preserves is preserved by
    the functions built from the calls.  [allowed] says which calls may
    occur. *)
Section Steps.
Context {P : Platform}.
Variable R : State -> State -> Prop.
Variable allowed : Event -> bool.
Hypothesis R_refl : forall s, R s s.
Hypothesis R_trans : forall s1 s2 s3, R s1 s2 -> R s2 s3 -> R s1 s3.
Hypothesis R_same : forall ev s, allowed ev = true -> R s (log ev s (world s)).
Hypothesis R_now : forall s,
  allowed EvDateNow = true -> R s (log EvDateNow s (snd (Date_now (world s)))).
Hypothesis R_ensureDir : forall p s,
  allowed (EvEnsureDir p) = true ->
  R s (log (EvEnsureDir p) s (snd (fs_ensureDir p (world s)))).
Hypothesis R_toFile : forall i q o s,
  allowed (EvSharpToFile i q o) = true ->
  R s (log (EvSharpToFile i q o) s (snd (sharp_toFile i q o (world s)))).
Hypothesis R_list : forall q s,
  allowed (EvDriveList q) = true ->
  R s (log (EvDriveList q) s (snd (drive_files_list q (world s)))).
Hypothesis R_get : forall f s,
  allowed (EvDriveGet f) = true ->
  R s (log (EvDriveGet f) s (snd (drive_files_get f (world s)))).
Hypothesis R_stream : forall f d s,
  allowed (EvDriveStream f d) = true ->
  R s (log (EvDriveStream f d) s (snd (drive_stream_to f d (world s)))).

Lemma steps_ret {A : Type} (a : A) : steps R (ret a).
Proof. intros s. apply R_refl. Qed.

Lemma steps_throw {A : Type} (e : exn) : steps R (@throw P A e).
Proof. intros s. apply R_refl. Qed.

Lemma steps_bind {A B : Type} (m : M A) (k : A -> M B) :
  steps R m -> (forall a, steps R (k a)) -> steps R (bind m k).
Proof.
  intros Hm Hk s. specialize (Hm s). unfold steps, after, bind in *.
  destruct (m s) as [[a|e] s']; simpl in *.
  - eapply R_trans; [exact Hm | apply Hk].
  - exact Hm.
Qed.

Lemma steps_try_catch {A : Type} (body : M A) (handler : exn -> M A) :
  steps R body -> (forall e, steps R (handler e)) -> steps R (try_catch body handler).
Proof.
  intros Hm Hk s. specialize (Hm s). unfold steps, after, try_catch in *.
  destruct (body s) as [[a|e] s']; simpl in *.
  - exact Hm.
  - eapply R_trans; [exact Hm | apply Hk].
Qed.

Lemma steps_for_of {A S : Type} (xs : list A) (body : A -> S -> M S) (acc : S) :
  (forall x a, steps R (body x a)) -> steps R (for_of xs body acc).
Proof.
  intros Hbody. revert acc. induction xs as [|x xs IH]; intros acc.
  - apply steps_ret.
  - rewrite for_of_cons. apply steps_bind; [apply Hbody | exact IH].
Qed.

Lemma steps_reading {A : Type} (ev : Event) (f : World -> A) :
  allowed ev = true -> steps R (reading ev f).
Proof. intros H s. apply R_same. exact H. Qed.

Lemma steps_asking {A : Type} (ev : Event) (f : World -> outcome A) :
  allowed ev = true -> steps R (asking ev f).
Proof. intros H s. apply R_same. exact H. Qed.

Lemma steps_now : allowed EvDateNow = true -> steps R now.
Proof.
  intros H s. pose proof (R_now s H) as Hprim. unfold after, now.
  destruct (Date_now (world s)); exact Hprim.
Qed.

Lemma steps_ensureDir (p : string) : allowed (EvEnsureDir p) = true -> steps R (ensureDir p).
Proof.
  intros H s. pose proof (R_ensureDir p s H) as Hprim. unfold after, ensureDir, acting.
  destruct (fs_ensureDir p (world s)); exact Hprim.
Qed.

Lemma steps_toFile (i : string) (q : Z) (o : string) :
  allowed (EvSharpToFile i q o) = true -> steps R (toFile i q o).
Proof.
  intros H s. pose proof (R_toFile i q o s H) as Hprim. unfold after, toFile, acting.
  destruct (sharp_toFile i q o (world s)); exact Hprim.
Qed.

(** The functions of the expansion make expansion calls only. *)
Section Expansion.
Variable this : ImageConverter.
Hypothesis allowed_expansion : forall ev, expansionEvent ev = true -> allowed ev = true.

Lemma steps_listTiffFiles (folder : string) : steps R (GoogleDrive.listTiffFiles folder).
Proof.
  unfold GoogleDrive.listTiffFiles. apply steps_try_catch.
  - apply steps_bind; [|intros; apply steps_ret].
    intros s. pose proof (R_list (GoogleDrive.listQuery folder) s (allowed_expansion (EvDriveList _) eq_refl)) as Hprim.
    unfold after, acting. destruct (drive_files_list _ (world s)); exact Hprim.
  - intros e. apply steps_throw.
Qed.

Lemma steps_downloadFile (fileId dest : string) :
  steps R (GoogleDrive.downloadFile fileId dest).
Proof.
  unfold GoogleDrive.downloadFile. apply steps_bind.
  - apply steps_try_catch; [|intros; apply steps_throw].
    intros s. pose proof (R_get fileId s (allowed_expansion (EvDriveGet _) eq_refl)) as Hprim.
    unfold after, acting. destruct (drive_files_get _ (world s)); exact Hprim.
  - intros _ s. pose proof (R_stream fileId dest s (allowed_expansion (EvDriveStream _ _) eq_refl)) as Hprim.
    unfold after, acting. destruct (drive_stream_to _ _ (world s)); exact Hprim.
Qed.

Lemma steps_processGoogleDriveFolder (folder tempDir : string) :
  steps R (processGoogleDriveFolder this folder tempDir).
Proof.
  unfold processGoogleDriveFolder.
  destruct (negb (serviceReady this)); [apply steps_throw|].
  apply steps_bind; [apply steps_listTiffFiles|]. intros files.
  apply steps_for_of. intros file acc. unfold downloadInto.
  apply steps_bind; [apply steps_downloadFile | intros; apply steps_ret].
Qed.

Lemma steps_findTiffFiles_item (item : Dirent) :
  forall directory, steps R (findTiffFiles_item directory item).
Proof.
  induction item as [n | n | n e | n items IH] using Dirent_tree_ind;
    intros directory; simpl.
  - destruct (hasTiffExtension n); apply steps_ret.
  - apply steps_ret.
  - apply steps_bind; [|intros; apply steps_ret].
    apply steps_asking. apply allowed_expansion. reflexivity.
  - apply steps_bind; [apply steps_asking; apply allowed_expansion; reflexivity|].
    intros _. revert IH. generalize (@nil string).
    induction items as [|it items IHitems]; intros acc IH.
    + apply steps_ret.
    + rewrite for_of_cons. inversion IH as [|? ? Hit Hrest]; subst.
      apply steps_bind.
      * apply steps_bind; [apply Hit | intros; apply steps_ret].
      * intros acc'. apply IHitems. exact Hrest.
Qed.

Lemma steps_findTiffFiles (directory : string) : steps R (findTiffFiles this directory).
Proof.
  unfold findTiffFiles. destruct (recursive (options this)).
  - apply steps_bind; [apply steps_asking; apply allowed_expansion; reflexivity|].
    intros items. unfold findTiffFiles_deep. apply steps_for_of. intros it acc.
    apply steps_bind; [apply steps_findTiffFiles_item | intros; apply steps_ret].
  - apply steps_bind; [apply steps_asking; apply allowed_expansion; reflexivity|].
    intros items. apply steps_ret.
Qed.

Lemma steps_processLocalPath (input : string) : steps R (processLocalPath this input).
Proof.
  unfold processLocalPath.
  apply steps_bind; [apply steps_reading; apply allowed_expansion; reflexivity|].
  intros dir.
  apply steps_bind; [apply steps_reading; apply allowed_expansion; reflexivity|].
  intros found. destruct (negb found); [apply steps_throw|].
  apply steps_bind; [apply steps_asking; apply allowed_expansion; reflexivity|].
  intros k. destruct (isFile k); [apply steps_ret|].
  destruct (isDirectory k); [apply steps_findTiffFiles | apply steps_ret].
Qed.

Lemma steps_expandInput (tempDir input : string) (acc : list string) :
  steps R (expandInput this tempDir input acc).
Proof.
  unfold expandInput. destruct (type (InputParser.parse input)).
  - apply steps_bind; [apply steps_processLocalPath | intros; apply steps_ret].
  - destruct (googleDriveService this); [|apply steps_throw].
    apply steps_bind; [apply steps_processGoogleDriveFolder | intros; apply steps_ret].
Qed.

Lemma steps_collectFiles (tempDir : string) (inputs : list string) :
  steps R (collectFiles this tempDir inputs).
Proof.
  unfold collectFiles.
  apply steps_bind; [apply steps_ensureDir; apply allowed_expansion; reflexivity|].
  intros _. apply steps_for_of. intros x acc. apply steps_expandInput.
Qed.

End Expansion.

(** The conversion, and the [try] block of [processInput] once the staging
    directory is set up. *)
Section WholeRun.
Variable this : ImageConverter.
Hypothesis allowed_all : forall ev, notRemove ev = true -> allowed ev = true.

Lemma allowed_expansion_all (ev : Event) : expansionEvent ev = true -> allowed ev = true.
Proof. intros H. apply allowed_all. destruct ev; try reflexivity; discriminate. Qed.

Lemma steps_isValidTiffFile (p : string) : steps R (isValidTiffFile p).
Proof.
  unfold isValidTiffFile. apply steps_try_catch; [|intros; apply steps_ret].
  apply steps_bind; [apply steps_asking; apply allowed_all; reflexivity|].
  intros k. destruct (negb (isFile k)); [apply steps_ret|].
  destruct (negb (hasTiffExtension p)); [apply steps_ret|].
  apply steps_bind; [apply steps_asking; apply allowed_all; reflexivity|].
  intros md. apply steps_ret.
Qed.

Lemma steps_convertFile (input : string) : steps R (convertFile this input).
Proof.
  unfold convertFile.
  apply steps_bind; [apply steps_now; apply allowed_all; reflexivity|].
  intros t0. apply steps_try_catch.
  - apply steps_bind; [apply steps_isValidTiffFile|]. intros valid.
    apply steps_bind; [destruct (negb valid); [apply steps_throw | apply steps_ret]|].
    intros _.
    apply steps_bind; [apply steps_ensureDir; apply allowed_all; reflexivity|].
    intros _.
    apply steps_bind; [apply steps_toFile; apply allowed_all; reflexivity|].
    intros _.
    apply steps_bind; [apply steps_now; apply allowed_all; reflexivity|].
    intros t1. apply steps_ret.
  - intros e.
    apply steps_bind; [apply steps_now; apply allowed_all; reflexivity|].
    intros t1. apply steps_ret.
Qed.

Lemma steps_convertFiles (inputPaths : list string) : steps R (convertFiles this inputPaths).
Proof.
  unfold convertFiles.
  apply steps_bind; [apply steps_now; apply allowed_all; reflexivity|].
  intros t0. apply steps_bind.
  - apply steps_for_of. intros x st.
    apply steps_bind; [apply steps_convertFile | intros; apply steps_ret].
  - intros st.
    apply steps_bind; [apply steps_now; apply allowed_all; reflexivity|].
    intros t1. apply steps_ret.
Qed.

Lemma steps_after_setup (tempDir : string) (inputs : list string) :
  steps R (allFiles <- for_of inputs (expandInput this tempDir) [] ;;
           if (Z.of_nat (List.length allFiles) =? 0)%Z then ret zeroStats
           else convertFiles this allFiles).
Proof.
  apply steps_bind.
  - apply steps_for_of. intros x acc. apply steps_expandInput. exact allowed_expansion_all.
  - intros files. destruct (Z.of_nat (List.length files) =? 0)%Z;
      [apply steps_ret | apply steps_convertFiles].
Qed.

End WholeRun.
End Steps.

(* ================================================================== *)
(** * Properties of the Pipeline Orchestrator *)
(* ================================================================== *)

Section TraceFacts.
Context {P : Platform}.

Lemma extends_refl (Q : Event -> bool) (s : State) : extends Q s s.
Proof. exists []. split; [now rewrite app_nil_r | reflexivity]. Qed.

Lemma extends_trans (Q : Event -> bool) (s1 s2 s3 : State) :
  extends Q s1 s2 -> extends Q s2 s3 -> extends Q s1 s3.
Proof.
  intros (e1 & H1 & Q1) (e2 & H2 & Q2). exists (e1 ++ e2)%list. split.
  - rewrite H2, H1, app_assoc. reflexivity.
  - rewrite forallb_app, Q1, Q2. reflexivity.
Qed.

Lemma extends_log (Q : Event -> bool) (ev : Event) (s : State) (w : World) :
  Q ev = true -> extends Q s (log ev s w).
Proof. intros H. exists [ev]. split; [reflexivity | simpl; now rewrite H]. Qed.

Lemma extends_weaken (Q Q' : Event -> bool) (s s' : State) :
  (forall ev, Q ev = true -> Q' ev = true) -> extends Q s s' -> extends Q' s s'.
Proof.
  intros HQ (evs & H & Hall). exists evs. split; [exact H|].
  rewrite forallb_forall in *. intros ev Hin. apply HQ, Hall, Hin.
Qed.

Lemma expansion_notEngine (ev : Event) : expansionEvent ev = true -> notEngine ev = true.
Proof. destruct ev; simpl; intros H; try reflexivity; discriminate. Qed.

(** The expansion of the inputs calls neither the clock nor the codec. *)
Lemma collectFiles_expansion_only (this : ImageConverter) (tempDir : string)
      (inputs : list string) :
  steps (extends expansionEvent) (collectFiles this tempDir inputs).
Proof.
  apply steps_collectFiles with (allowed := expansionEvent);
    intros; eauto using extends_refl, extends_trans, extends_log.
Qed.

Lemma keeps_refl (p : string) (s : State) : keeps p s s.
Proof. intros H. exact H. Qed.

Lemma keeps_trans (p : string) (s1 s2 s3 : State) :
  keeps p s1 s2 -> keeps p s2 s3 -> keeps p s1 s3.
Proof. unfold keeps. auto. Qed.

(** Under [PlatformKeeps], the [try] block of [processInput] deletes nothing
    once the staging directory is set up. *)
Lemma after_setup_keeps (K : PlatformKeeps P) (this : ImageConverter) (p tempDir : string)
      (inputs : list string) :
  steps (keeps p)
    (allFiles <- for_of inputs (expandInput this tempDir) [] ;;
     if (Z.of_nat (List.length allFiles) =? 0)%Z then ret zeroStats
     else convertFiles this allFiles).
Proof.
  apply steps_after_setup with (allowed := anyEvent); try reflexivity;
    unfold keeps; cbn [world log]; intros;
    first [ assumption
          | apply keeps_now; assumption
          | apply keeps_ensureDir; assumption
          | apply keeps_toFile; assumption
          | apply keeps_list; assumption
          | apply keeps_get; assumption
          | apply keeps_stream; assumption
          | auto ].
Qed.

Lemma after_setup_trace (this : ImageConverter) (tempDir : string) (inputs : list string) :
  steps (extends anyEvent)
    (allFiles <- for_of inputs (expandInput this tempDir) [] ;;
     if (Z.of_nat (List.length allFiles) =? 0)%Z then ret zeroStats
     else convertFiles this allFiles).
Proof.
  apply steps_after_setup with (allowed := anyEvent);
    intros; eauto using extends_refl, extends_trans, extends_log.
Qed.

(** The [finally] block: it asks whether the directory exists and removes
    it if so; it throws when, and only when, the removal does. *)
Lemma cleanup_run (p : string) (s : State) :
  cleanup p s
  = if fs_pathExists p (world s)
    then (fst (fs_remove p (world s)),
          log (EvRemove p) (log (EvPathExists p) s (world s)) (snd (fs_remove p (world s))))
    else (Ok tt, log (EvPathExists p) s (world s)).
Proof.
  unfold cleanup. rewrite (run_bind (run_pathExists p s)).
  destruct (fs_pathExists p (world s)); [rewrite run_remove|]; reflexivity.
Qed.

Lemma cleanup_trace (p : string) (s : State) :
  trace (after (cleanup p) s)
  = (trace s ++ EvPathExists p
               :: (if fs_pathExists p (world s) then [EvRemove p] else []))%list.
Proof.
  unfold after. rewrite cleanup_run.
  destruct (fs_pathExists p (world s)); cbn [snd trace log]; [|reflexivity].
  rewrite <- app_assoc. reflexivity.
Qed.

(** A cleanup that throws throws the error of the removal. *)
Lemma cleanup_throws (p : string) (s : State) (e : exn) :
  result (cleanup p) s = Throw e ->
  fs_pathExists p (world s) = true /\ fst (fs_remove p (world s)) = Throw e.
Proof.
  unfold result. rewrite cleanup_run.
  destruct (fs_pathExists p (world s)); cbn [fst]; [auto | discriminate].
Qed.

(** A cleanup that does not throw leaves no directory behind. *)
Lemma cleanup_gone (L : PlatformLaws P) (p : string) (s : State) :
  result (cleanup p) s = Ok tt ->
  fs_pathExists p (world (after (cleanup p) s)) = false.
Proof.
  unfold result, after. rewrite cleanup_run.
  destruct (fs_pathExists p (world s)) eqn:E; cbn [fst snd world log].
  - apply pathExists_remove.
  - intros _. exact E.
Qed.

(** [processInput]: the [try] block from the state after [process.cwd()],
    then the [finally] block. *)
Lemma processInput_run (this : ImageConverter) (inputs : list string) (s : State) :
  let tempDir := tempDirOf (process_cwd (world s)) in
  let s1 := after (tryBlock this tempDir inputs) (after cwd s) in
  processInput this inputs s
  = (settle (result (tryBlock this tempDir inputs) (after cwd s))
            (result (cleanup tempDir) s1),
     after (cleanup tempDir) s1).
Proof.
  intros tempDir s1. unfold processInput.
  rewrite (run_bind (run_cwd s)). fold tempDir.
  change (try_finally (tryBlock this tempDir inputs) (cleanup tempDir)
                      (log EvCwd s (world s))
          = (settle (result (tryBlock this tempDir inputs) (after cwd s))
                    (result (cleanup tempDir) s1),
             after (cleanup tempDir) s1)).
  subst s1. unfold try_finally, result, after, settle. cbn [snd cwd reading].
  destruct (tryBlock this tempDir inputs (log EvCwd s (world s))) as [r sb]. cbn [fst snd].
  destruct (cleanup tempDir sb) as [[[]|e] sc]; reflexivity.
Qed.

Lemma processInput_from_block (this : ImageConverter) (inputs : list string)
      (s s1 : State) (r : outcome ConversionStats) :
  let tempDir := tempDirOf (process_cwd (world s)) in
  tryBlock this tempDir inputs (after cwd s) = (r, s1) ->
  processInput this inputs s
  = (settle r (result (cleanup tempDir) s1), after (cleanup tempDir) s1).
Proof.
  intros tempDir Hb. rewrite processInput_run. fold tempDir.
  assert (Hr1 : result (tryBlock this tempDir inputs) (after cwd s) = r)
    by (unfold result; rewrite Hb; reflexivity).
  assert (Ha1 : after (tryBlock this tempDir inputs) (after cwd s) = s1)
    by (unfold after at 1; rewrite Hb; reflexivity).
  rewrite Hr1, Ha1. reflexivity.
Qed.

Lemma tryBlock_expanded (this : ImageConverter) (tempDir : string) (inputs : list string)
      (s s1 : State) (files : list string) :
  collectFiles this tempDir inputs s = (Ok files, s1) ->
  tryBlock this tempDir inputs s
  = if (Z.of_nat (List.length files) =? 0)%Z then (Ok zeroStats, s1)
    else convertFiles this files s1.
Proof.
  intros H. unfold tryBlock. rewrite (run_bind H).
  destruct (Z.of_nat (List.length files) =? 0)%Z; reflexivity.
Qed.

Lemma tryBlock_throws (this : ImageConverter) (tempDir : string) (inputs : list string)
      (s s1 : State) (e : exn) :
  collectFiles this tempDir inputs s = (Throw e, s1) ->
  tryBlock this tempDir inputs s = (Throw e, s1).
Proof. intros H. unfold tryBlock. apply run_bind_throw. exact H. Qed.

End TraceFacts.

Section PipelineFacts.
Context {P : Platform}.
Variable this : ImageConverter.

Lemma cleanup_extends (p : string) (s : State) :
  extends notEngine s (after (cleanup p) s).
Proof.
  eexists. split; [apply cleanup_trace|].
  destruct (fs_pathExists p (world s)); reflexivity.
Qed.

(** From the start of a run to the end of its expansion, and through the
    cleanup, neither the clock nor the codec is called. *)
Lemma expansion_then_cleanup_notEngine (tempDir : string) (inputs : list string) (s : State) :
  extends notEngine s
    (after (cleanup tempDir) (after (collectFiles this tempDir inputs) (after cwd s))).
Proof.
  apply extends_trans with (after cwd s); [apply extends_log; reflexivity|].
  apply extends_trans with (after (collectFiles this tempDir inputs) (after cwd s)).
  - apply extends_weaken with expansionEvent; [exact expansion_notEngine|].
    apply collectFiles_expansion_only.
  - apply cleanup_extends.
Qed.

(** A run whose expansion gives no file, or throws, ends where the cleanup
    leaves the state of the expansion. *)
Lemma processInput_without_engine (inputs : list string) (s s1 : State)
      (r : outcome (list string)) :
  let tempDir := tempDirOf (process_cwd (world s)) in
  collectFiles this tempDir inputs (after cwd s) = (r, s1) ->
  match r with Ok files => files = [] | Throw _ => True end ->
  processInput this inputs s
  = (settle (match r with Ok _ => Ok zeroStats | Throw e => Throw e end)
            (result (cleanup tempDir) s1),
     after (cleanup tempDir) s1)
  /\ extends notEngine s (after (processInput this inputs) s).
Proof.
  intros tempDir Hc Hr.
  assert (Hb : tryBlock this tempDir inputs (after cwd s)
               = (match r with Ok _ => Ok zeroStats | Throw e => Throw e end, s1)).
  { destruct r as [files|e].
    - subst files. rewrite (tryBlock_expanded _ _ _ _ _ _ Hc). reflexivity.
    - apply tryBlock_throws. exact Hc. }
  assert (Hrun : processInput this inputs s
                 = (settle (match r with Ok _ => Ok zeroStats | Throw e => Throw e end)
                           (result (cleanup tempDir) s1),
                    after (cleanup tempDir) s1)).
  { apply processInput_from_block. exact Hb. }
  split; [exact Hrun|].
  unfold after at 1. rewrite Hrun. cbn [snd].
  replace s1 with (after (collectFiles this tempDir inputs) (after cwd s))
    by (unfold after at 1; rewrite Hc; reflexivity).
  apply expansion_then_cleanup_notEngine.
Qed.

(** C7: a run of [processInput] ends, on every exit path, by asking whether
    the staging directory exists and calling [fs.remove] on it if so.  When
    the run returns statistics the directory does not exist afterwards.
    When the run throws, the directory does not exist afterwards either,
    unless the error thrown is that of the removal itself: a removal that
    fails replaces the outcome of the run, and of what it leaves nothing is
    known. *)
Theorem C7_staging_directory_gone_after_every_run :
  forall (L : PlatformLaws P) (inputs : list string) (s : State),
    let tempDir := tempDirOf (process_cwd (world s)) in
    let s1 := after (tryBlock this tempDir inputs) (after cwd s) in
    let final := after (processInput this inputs) s in
    trace final
    = (trace s1 ++ EvPathExists tempDir
                  :: (if fs_pathExists tempDir (world s1) then [EvRemove tempDir] else []))%list
    /\ (forall stats, result (processInput this inputs) s = Ok stats ->
          fs_pathExists tempDir (world final) = false)
    /\ (forall e, result (processInput this inputs) s = Throw e ->
          fs_pathExists tempDir (world final) = false
          \/ (fs_pathExists tempDir (world s1) = true
              /\ fst (fs_remove tempDir (world s1)) = Throw e)).
Proof.
  intros L inputs s tempDir s1 final.
  pose proof (processInput_run this inputs s) as Hrun. cbv zeta in Hrun.
  fold tempDir in Hrun. fold s1 in Hrun.
  assert (Hfinal : final = after (cleanup tempDir) s1)
    by (subst final; unfold after at 1; rewrite Hrun; reflexivity).
  assert (Hres : result (processInput this inputs) s
                 = settle (result (tryBlock this tempDir inputs) (after cwd s))
                          (result (cleanup tempDir) s1))
    by (unfold result at 1; rewrite Hrun; reflexivity).
  rewrite Hfinal, Hres. split; [apply cleanup_trace|].
  destruct (result (cleanup tempDir) s1) as [[]|e'] eqn:Hc; cbn [settle].
  - split; intros; [|left]; apply cleanup_gone; assumption.
  - split; [discriminate|]. intros e He. injection He as <-.
    right. apply cleanup_throws. exact Hc.
Qed.

(** C8: when the inputs expand to no file at all, [processInput] calls
    neither the clock nor the codec: the Conversion Engine is not entered;
    and it returns the zero statistics unless the removal of the staging
    directory fails, in which case it throws the error of the removal.  The
    empty input list is such a run when the staging directory can be set up;
    when it cannot, the run throws, and the engine is not entered either. *)
Theorem C8_nothing_to_convert :
  forall (inputs : list string) (s : State),
    let tempDir := tempDirOf (process_cwd (world s)) in
    let zero := {| total := 0; successful := 0; failed := 0; totalTime := 0 |} in
    (forall s1,
       collectFiles this tempDir inputs (after cwd s) = (Ok [], s1) ->
       result (processInput this inputs) s = settle (Ok zero) (result (cleanup tempDir) s1)
       /\ (result (cleanup tempDir) s1 = Ok tt ->
           result (processInput this inputs) s = Ok zero)
       /\ (forall e, result (processInput this inputs) s = Throw e ->
             fst (fs_remove tempDir (world s1)) = Throw e)
       /\ extends notEngine s (after (processInput this inputs) s))
    /\ (let s1 := after (ensureDir tempDir) (after cwd s) in
        result (processInput this []) s
        = settle (match fst (fs_ensureDir tempDir (world s)) with
                  | Ok _ => Ok zero
                  | Throw e => Throw e
                  end)
                 (result (cleanup tempDir) s1)
        /\ extends notEngine s (after (processInput this []) s)).
Proof.
  intros inputs s tempDir zero. split.
  - intros s1 Hc.
    destruct (processInput_without_engine inputs s s1 (Ok []) Hc eq_refl) as [Hrun Hext].
    fold tempDir in Hrun.
    assert (Hres : result (processInput this inputs) s
                   = settle (Ok zero) (result (cleanup tempDir) s1))
      by (unfold result at 1; rewrite Hrun; reflexivity).
    split; [exact Hres|]. split; [|split; [|exact Hext]].
    + intros Hok. rewrite Hres, Hok. reflexivity.
    + intros e. rewrite Hres.
      destruct (result (cleanup tempDir) s1) as [[]|e'] eqn:Hcl; cbn [settle];
        [discriminate|].
      intros He. injection He as <-. apply (cleanup_throws _ _ _ Hcl).
  - intros s1.
    assert (Hc : collectFiles this tempDir [] (after cwd s)
                 = (match fst (fs_ensureDir tempDir (world s)) with
                    | Ok _ => Ok []
                    | Throw e => Throw e
                    end, s1)).
    { assert (He : ensureDir tempDir (after cwd s)
                   = (fst (fs_ensureDir tempDir (world s)), s1))
        by (subst s1; unfold after; rewrite run_ensureDir; reflexivity).
      unfold collectFiles, bind. rewrite He.
      destruct (fst (fs_ensureDir tempDir (world s))) as [[]|e]; reflexivity. }
    destruct (processInput_without_engine [] s s1 _ Hc) as [Hrun Hext].
    { destruct (fst (fs_ensureDir tempDir (world s))); [reflexivity | exact I]. }
    fold tempDir in Hrun. split; [|exact Hext].
    unfold result at 1. rewrite Hrun. cbn [fst].
    destruct (fst (fs_ensureDir tempDir (world s))); reflexivity.
Qed.

End PipelineFacts.

Section FatalFacts.
Context {P : Platform}.
Variable this : ImageConverter.

Lemma processLocalPath_missing (input : string) (s : State) :
  fs_pathExists (path_resolve (process_cwd (world s)) input) (world s) = false ->
  exists s', processLocalPath this input s
             = (Throw (JsError ("Path does not exist: " ++ input)), s').
Proof.
  intros H. unfold processLocalPath.
  rewrite (run_bind (run_cwd s)).
  rewrite (run_bind (run_pathExists _ _)). cbn [world log]. rewrite H. cbn [negb].
  eexists. reflexivity.
Qed.

Lemma listTiffFiles_fails (folder : string) (s : State) (e : exn) :
  fst (drive_files_list (GoogleDrive.listQuery folder) (world s)) = Throw e ->
  exists s', GoogleDrive.listTiffFiles folder s
             = (Throw (JsError ("Failed to list files: " ++ to_text e)), s').
Proof.
  intros H. unfold GoogleDrive.listTiffFiles, try_catch, bind, acting.
  destruct (drive_files_list (GoogleDrive.listQuery folder) (world s)) as [r w].
  cbn [fst] in H. subst r. eexists. reflexivity.
Qed.

Lemma serviceReady_present : serviceReady this = true -> googleDriveService this <> None.
Proof. unfold serviceReady. destruct (googleDriveService this); [discriminate | discriminate]. Qed.

(** A remote input is expanded by [processGoogleDriveFolder] on its folder
    id, and what that throws, the expansion of the input throws. *)
Lemma expandInput_remote_throws (tempDir x fid : string) (got : list string)
      (s s' : State) (e : exn) :
  type (InputParser.parse x) = google_drive ->
  folderId (InputParser.parse x) = Some fid ->
  googleDriveService this <> None ->
  processGoogleDriveFolder this fid tempDir s = (Throw e, s') ->
  expandInput this tempDir x got s = (Throw e, s').
Proof.
  intros Ht Hf Hsvc Hthrow. unfold expandInput. rewrite Ht, Hf.
  destruct (googleDriveService this); [|congruence].
  apply run_bind_throw. exact Hthrow.
Qed.

(** C6: errors of the expansion are fatal to the run, errors of single files
    are not.  A local path that does not exist, a Drive input without a
    (ready) Drive service, a failing listing and a failing download of any
    one listed file each make the expansion of that input throw; the files
    downloaded before the failing one are not returned.  An input whose
    expansion throws makes the whole expansion throw, and then
    [processInput] throws after the cleanup, having called neither the clock
    nor the codec, so that no statistics are produced: it throws the error
    of the expansion, or that of the cleanup when the cleanup fails.  When
    every input expands, the [try] block returns statistics whatever the
    validation and the codec do with the files, and [processInput] returns
    them: the only error it can still throw is that of the cleanup. *)
Theorem C6_expansion_errors_are_fatal_file_errors_are_not :
  forall (inputs : list string) (s : State),
    let tempDir := tempDirOf (process_cwd (world s)) in
    (forall e s1,
       collectFiles this tempDir inputs (after cwd s) = (Throw e, s1) ->
       (exists e', result (processInput this inputs) s = Throw e')
       /\ result (processInput this inputs) s
          = settle (Throw e) (result (cleanup tempDir) s1)
       /\ after (processInput this inputs) s = after (cleanup tempDir) s1
       /\ extends notEngine s (after (processInput this inputs) s))
    /\ (forall pre x post got s1 s2 s3 e,
          inputs = (pre ++ x :: post)%list ->
          ensureDir tempDir (after cwd s) = (Ok tt, s1) ->
          for_of pre (expandInput this tempDir) [] s1 = (Ok got, s2) ->
          expandInput this tempDir x got s2 = (Throw e, s3) ->
          collectFiles this tempDir inputs (after cwd s) = (Throw e, s3))
    /\ (forall x got st,
          type (InputParser.parse x) = local ->
          fs_pathExists (path_resolve (process_cwd (world st)) x) (world st) = false ->
          result (expandInput this tempDir x got) st
          = Throw (JsError ("Path does not exist: " ++ x)))
    /\ (forall x got st,
          type (InputParser.parse x) = google_drive ->
          googleDriveService this = None ->
          result (expandInput this tempDir x got) st
          = Throw (JsError "Google Drive service not initialized. Please provide credentials."))
    /\ (forall x got st,
          type (InputParser.parse x) = google_drive ->
          googleDriveService this <> None ->
          serviceReady this = false ->
          result (expandInput this tempDir x got) st
          = Throw (JsError "Google Drive service not properly initialized. Please provide valid credentials."))
    /\ (forall x fid got st e,
          type (InputParser.parse x) = google_drive ->
          folderId (InputParser.parse x) = Some fid ->
          serviceReady this = true ->
          fst (drive_files_list (GoogleDrive.listQuery fid) (world st)) = Throw e ->
          result (expandInput this tempDir x got) st
          = Throw (JsError ("Failed to list files: " ++ to_text e)))
    /\ (forall x fid got st pre f post fetched s1 s2 s3 e,
          type (InputParser.parse x) = google_drive ->
          folderId (InputParser.parse x) = Some fid ->
          serviceReady this = true ->
          GoogleDrive.listTiffFiles fid st = (Ok (pre ++ f :: post)%list, s1) ->
          for_of pre (downloadInto tempDir) [] s1 = (Ok fetched, s2) ->
          GoogleDrive.downloadFile (id f) (path_join tempDir (name f)) s2 = (Throw e, s3) ->
          expandInput this tempDir x got st = (Throw e, s3))
    /\ (forall files s1,
          collectFiles this tempDir inputs (after cwd s) = (Ok files, s1) ->
          exists stats s2,
            tryBlock this tempDir inputs (after cwd s) = (Ok stats, s2)
            /\ result (processInput this inputs) s
               = settle (Ok stats) (result (cleanup tempDir) s2)
            /\ (forall e, result (processInput this inputs) s = Throw e ->
                  fst (fs_remove tempDir (world s2)) = Throw e)
            /\ (files <> [] -> convertFiles this files s1 = (Ok stats, s2))
            /\ (files = [] -> stats = zeroStats)).
Proof.
  intros inputs s tempDir.
  split; [|split; [|split; [|split; [|split; [|split; [|split]]]]]].
  - (* the run throws when the expansion throws *)
    intros e s1 Hc.
    destruct (processInput_without_engine this inputs s s1 (Throw e) Hc I) as [Hrun Hext].
    fold tempDir in Hrun.
    assert (Hres : result (processInput this inputs) s
                   = settle (Throw e) (result (cleanup tempDir) s1))
      by (unfold result at 1; rewrite Hrun; reflexivity).
    split; [|split; [exact Hres|split; [|exact Hext]]].
    + rewrite Hres. destruct (result (cleanup tempDir) s1) as [[]|e']; cbn [settle];
        eexists; reflexivity.
    + unfold after at 1. rewrite Hrun. reflexivity.
  - (* the expansion stops at the first input that throws *)
    intros pre x post got s1 s2 s3 e -> Hmk Hpre Hx.
    unfold collectFiles. rewrite (run_bind Hmk).
    eapply for_of_throws; eassumption.
  - (* a local path that does not exist *)
    intros x got st Ht Hex. unfold result, expandInput. rewrite Ht.
    rewrite parse_path.
    destruct (processLocalPath_missing x st Hex) as [s' Hs'].
    rewrite (run_bind_throw Hs'). reflexivity.
  - (* no Drive service *)
    intros x got st Ht Hsvc. unfold result, expandInput. rewrite Ht, Hsvc. reflexivity.
  - (* a Drive service that is not initialized *)
    intros x got st Ht Hsvc Hready. unfold result, expandInput. rewrite Ht.
    destruct (googleDriveService this) eqn:E; [|congruence].
    unfold processGoogleDriveFolder. rewrite Hready. reflexivity.
  - (* the listing fails *)
    intros x fid got st e Ht Hf Hready Hlist.
    destruct (listTiffFiles_fails fid st e Hlist) as [s' Hs'].
    unfold result.
    rewrite (expandInput_remote_throws tempDir x fid got st s'
               (JsError ("Failed to list files: " ++ to_text e)) Ht Hf
               (serviceReady_present Hready)); [reflexivity|].
    unfold processGoogleDriveFolder. rewrite Hready. cbn [negb].
    apply run_bind_throw. exact Hs'.
  - (* one download fails *)
    intros x fid got st pre f post fetched s1 s2 s3 e Ht Hf Hready Hlist Hpre Hdl.
    apply expandInput_remote_throws with fid; auto using serviceReady_present.
    unfold processGoogleDriveFolder. rewrite Hready. cbn [negb].
    rewrite (run_bind Hlist).
    eapply for_of_throws; [exact Hpre|].
    unfold downloadInto. apply run_bind_throw. exact Hdl.
  - (* every input expands: statistics are returned *)
    intros files s1 Hc.
    destruct (convertFiles_run this files s1) as (rs & _ & _ & Hconv).
    pose proof (tryBlock_expanded _ _ _ _ _ _ Hc) as Hb.
    assert (Hfrom : forall stats s2,
              tryBlock this tempDir inputs (after cwd s) = (Ok stats, s2) ->
              result (processInput this inputs) s
              = settle (Ok stats) (result (cleanup tempDir) s2)
              /\ (forall e, result (processInput this inputs) s = Throw e ->
                    fst (fs_remove tempDir (world s2)) = Throw e)).
    { intros stats s2 Hblock.
      assert (Hres : result (processInput this inputs) s
                     = settle (Ok stats) (result (cleanup tempDir) s2)).
      { unfold result at 1.
        rewrite (processInput_from_block this inputs s s2 (Ok stats) Hblock).
        reflexivity. }
      split; [exact Hres|]. intros e. rewrite Hres.
      destruct (result (cleanup tempDir) s2) as [[]|e'] eqn:Hcl; cbn [settle];
        [discriminate|].
      intros He. injection He as <-. apply (cleanup_throws _ _ _ Hcl). }
    destruct files as [|f files].
    + cbn [List.length Z.of_nat Z.eqb] in Hb.
      exists zeroStats, s1. split; [exact Hb|].
      destruct (Hfrom _ _ Hb) as [H1 H2].
      split; [exact H1|]. split; [exact H2|]. split; congruence.
    + replace (Z.of_nat (List.length (f :: files)) =? 0)%Z with false in Hb
        by (symmetry; apply Z.eqb_neq; cbn [List.length]; lia).
      rewrite Hconv in Hb.
      eexists _, _. split; [exact Hb|].
      destruct (Hfrom _ _ Hb) as [H1 H2].
      split; [exact H1|]. split; [exact H2|]. split; [|discriminate].
      intros _. exact Hconv.
Qed.

End FatalFacts.

Section StagingFacts.
Context {P : Platform}.

(** The [try] block starts by ensuring the staging directory, in the world
    the run started in; under [PlatformKeeps] a directory that was created is
    still there when the block ends. *)
Lemma try_block_shape (this : ImageConverter) (inputs : list string) (s : State) :
  let tempDir := tempDirOf (process_cwd (world s)) in
  exists mid,
    trace (after (tryBlock this tempDir inputs) (after cwd s))
    = (trace s ++ [EvCwd; EvEnsureDir tempDir] ++ mid)%list
    /\ (PlatformKeeps P ->
        fst (fs_ensureDir tempDir (world s)) = Ok tt ->
        fs_pathExists tempDir (world (after (tryBlock this tempDir inputs) (after cwd s)))
        = true).
Proof.
  intros tempDir. unfold tryBlock, collectFiles.
  set (rest := allFiles <- for_of inputs (expandInput this tempDir) [] ;;
               if (Z.of_nat (List.length allFiles) =? 0)%Z then ret zeroStats
               else convertFiles this allFiles).
  set (s0 := after cwd s).
  assert (Hw0 : world s0 = world s) by reflexivity.
  assert (Ht0 : trace s0 = (trace s ++ [EvCwd])%list) by reflexivity.
  pose proof (run_ensureDir tempDir s0) as Hmk. rewrite Hw0 in Hmk.
  set (s1 := log (EvEnsureDir tempDir) s0 (snd (fs_ensureDir tempDir (world s)))) in *.
  assert (Ht1 : trace s1 = (trace s ++ [EvCwd; EvEnsureDir tempDir])%list).
  { subst s1. cbn [trace log]. rewrite Ht0, <- app_assoc. reflexivity. }
  assert (Hw1 : world s1 = snd (fs_ensureDir tempDir (world s))) by reflexivity.
  clearbody s1 s0.
  destruct (fst (fs_ensureDir tempDir (world s))) as [[]|e] eqn:Hfst.
  - assert (Hbody : after (bind (bind (ensureDir tempDir)
                                      (fun _ => for_of inputs (expandInput this tempDir) []))
                                (fun allFiles =>
                                   if (Z.of_nat (List.length allFiles) =? 0)%Z
                                   then ret zeroStats
                                   else convertFiles this allFiles)) s0
                    = after rest s1).
    { unfold after, bind at 1 2. rewrite Hmk. reflexivity. }
    rewrite Hbody.
    destruct (after_setup_trace this tempDir inputs s1) as (mid & Hmid & _).
    fold rest in Hmid.
    exists mid. split.
    + rewrite Hmid, Ht1, <- app_assoc. reflexivity.
    + intros K _. apply (after_setup_keeps K this tempDir tempDir inputs s1).
      rewrite Hw1. apply ensureDir_creates. exact Hfst.
  - exists []. split.
    + unfold after, bind at 1 2. rewrite Hmk. cbn [snd].
      rewrite Ht1, app_nil_r. reflexivity.
    + intros _ H. discriminate.
Qed.

(** The calls of a whole run: the working directory, the staging directory,
    whatever the inputs need, and the cleanup, which calls [fs.remove] if
    the directory is there when the [try] block is left. *)
Lemma processInput_shape (this : ImageConverter) (inputs : list string) (s : State) :
  let tempDir := tempDirOf (process_cwd (world s)) in
  let s1 := after (tryBlock this tempDir inputs) (after cwd s) in
  exists (mid : list Event),
    trace (after (processInput this inputs) s)
    = (trace s ++ [EvCwd; EvEnsureDir tempDir] ++ mid
         ++ EvPathExists tempDir
            :: (if fs_pathExists tempDir (world s1) then [EvRemove tempDir] else []))%list
    /\ (PlatformKeeps P -> fst (fs_ensureDir tempDir (world s)) = Ok tt ->
        fs_pathExists tempDir (world s1) = true).
Proof.
  intros tempDir s1. unfold after at 1. rewrite processInput_run. cbn [snd].
  fold tempDir. fold s1.
  destruct (try_block_shape this inputs s) as (mid & Hmid & Hkeeps).
  fold tempDir in Hmid, Hkeeps. fold s1 in Hmid, Hkeeps.
  exists mid. split; [|exact Hkeeps].
  rewrite cleanup_trace, Hmid. rewrite <- !app_assoc. reflexivity.
Qed.

(** C10: the staging directory of a run is [.temp-downloads] under the
    working directory, whatever the inputs.  The run calls [fs.ensureDir] on
    it before it looks at any input, in the world it started in, and ends by
    asking whether it exists and calling [fs.remove] on it if so.  When the
    directory could be created and no call but [fs.remove] deletes, it is
    there at the end of the [try] block, so that the removal is called; and
    when the cleanup does not fail the directory is gone after the run.  Two
    runs started in the same working directory use the same staging path. *)
Theorem C10_staging_directory_fixed_and_always_set_up :
  forall (this : ImageConverter) (inputs : list string) (s : State),
    let tempDir := path_join (process_cwd (world s)) ".temp-downloads" in
    let s1 := after (tryBlock this tempDir inputs) (after cwd s) in
    let final := after (processInput this inputs) s in
    (exists (mid : list Event),
        trace final
        = (trace s ++ [EvCwd; EvEnsureDir tempDir] ++ mid
             ++ EvPathExists tempDir
                :: (if fs_pathExists tempDir (world s1) then [EvRemove tempDir] else []))%list
        /\ (PlatformKeeps P -> fst (fs_ensureDir tempDir (world s)) = Ok tt ->
            fs_pathExists tempDir (world s1) = true))
    /\ (PlatformLaws P -> result (cleanup tempDir) s1 = Ok tt ->
        fs_pathExists tempDir (world final) = false)
    /\ (forall (other : ImageConverter) (inputs' : list string) (s' : State),
          process_cwd (world s') = process_cwd (world s) ->
          exists rest,
            trace (after (processInput other inputs') s')
            = (trace s' ++ [EvCwd; EvEnsureDir tempDir] ++ rest)%list).
Proof.
  intros this inputs s tempDir s1 final. split; [|split].
  - exact (processInput_shape this inputs s).
  - intros L Hclean. subst final. unfold after at 1. rewrite processInput_run. cbn [snd].
    apply cleanup_gone; [exact L | exact Hclean].
  - intros other inputs' s' Hcwd.
    destruct (processInput_shape other inputs' s') as (mid & Htr & _).
    unfold tempDirOf in Htr. rewrite Hcwd in Htr. fold tempDir in Htr.
    eexists. exact Htr.
Qed.

End StagingFacts.

(* ================================================================== *)
(** * The in-memory platform obeys the laws; the theorems at work on it *)
(* ================================================================== *)

Lemma Mem_lookup_removed (p : string) (fs : list (string * Mem.Node)) :
  Mem.lookup p
    (filter (fun kv => negb (String.eqb p (fst kv) || Mem.starts_with (p ++ "/") (fst kv))) fs)
  = None.
Proof.
  induction fs as [|[k v] fs IH]; simpl; [reflexivity|].
  destruct (String.eqb p k) eqn:E; simpl; [exact IH|].
  destruct (Mem.starts_with (p ++ "/") k); simpl; [exact IH|].
  rewrite E. exact IH.
Qed.

Lemma Mem_exists_cons (p k : string) (v : Mem.Node) (w : Mem.MemWorld) :
  Mem.m_pathExists p w = true ->
  Mem.m_pathExists p (Mem.with_fs w ((k, v) :: Mem.m_fs w)) = true.
Proof.
  unfold Mem.m_pathExists. simpl. destruct (String.eqb p k); [reflexivity | auto].
Qed.

#[export] Instance Mem_laws : PlatformLaws Mem.platform.
Proof.
  constructor. intros p w. simpl. unfold Mem.m_remove.
  destruct (existsb (String.eqb p) (Mem.m_busy w)); cbn [fst snd]; [discriminate|].
  intros _. unfold Mem.m_pathExists. simpl.
  rewrite Mem_lookup_removed. reflexivity.
Qed.

#[export] Instance Mem_keeps : PlatformKeeps Mem.platform.
Proof.
  constructor; simpl.
  - intros p w. unfold Mem.m_ensureDir, Mem.m_pathExists.
    destruct (Mem.lookup p (Mem.m_fs w)) as [[f d | es |]|] eqn:E; simpl;
      try discriminate; intros _.
    + rewrite E. reflexivity.
    + rewrite String.eqb_refl. reflexivity.
  - intros p w H. unfold Mem.m_now.
    destruct (Mem.m_clock w) as [|t [|t' later]]; simpl; exact H.
  - intros p q w H. unfold Mem.m_ensureDir.
    destruct (Mem.lookup q (Mem.m_fs w)) as [[f d | es |]|]; simpl;
      auto using Mem_exists_cons.
  - intros p input output q w H. unfold Mem.m_toFile.
    destruct (Mem.lookup input (Mem.m_fs w)) as [[[f|] [|] | es |]|]; simpl;
      auto using Mem_exists_cons.
  - intros p query w H. unfold Mem.m_list.
    destruct (Mem.lookup query (Mem.m_listings w)); simpl; exact H.
  - intros p fileId w H. unfold Mem.m_get.
    destruct (existsb (String.eqb fileId) (Mem.m_unavailable w)); simpl; exact H.
  - intros p fileId dest w H. unfold Mem.m_stream. simpl.
    apply Mem_exists_cons. exact H.
Qed.

(** C7 on the sample world: the second file of the Drive folder [F1] cannot
    be downloaded, the run throws, and the staging directory, which held the
    first file, is gone. *)
Lemma C7_witness :
  result (processInput (Mem.converter false (Some {| initialized := true |}))
            ["a.tif"; "https://drive.google.com/drive/folders/F1"])
         (Mem.start Mem.sample)
  = Throw (JsError "Failed to download file: Request failed")
  /\ Mem.m_pathExists "/work/.temp-downloads"
       (world (after (processInput (Mem.converter false (Some {| initialized := true |}))
                        ["a.tif"; "https://drive.google.com/drive/folders/F1"])
                     (Mem.start Mem.sample)))
     = false.
Proof.
  split; [reflexivity|].
  destruct (proj2 (proj2 (C7_staging_directory_gone_after_every_run
                            (Mem.converter false (Some {| initialized := true |})) Mem_laws
                            ["a.tif"; "https://drive.google.com/drive/folders/F1"]
                            (Mem.start Mem.sample)))
                  (JsError "Failed to download file: Request failed") eq_refl)
    as [H | [_ H]]; [exact H | vm_compute in H; discriminate H].
Defined.

(** C7 as stated fails: when the staging directory is in use, a run that
    converted its one file throws the error of the removal, and the
    directory is still there. *)
Lemma C7_counterexample :
  result (processInput (Mem.converter false None) ["a.tif"]) (Mem.start Mem_busy)
  = Throw (JsError "EBUSY: resource busy or locked, rmdir /work/.temp-downloads")
  /\ fs_pathExists "/work/.temp-downloads"
       (world (after (processInput (Mem.converter false None) ["a.tif"])
                     (Mem.start Mem_busy)))
     = true.
Proof. split; vm_compute; reflexivity. Qed.

(** C8 on the sample world: the directory [docs] holds no TIFF name. *)
Lemma C8_witness :
  result (processInput (Mem.converter true None) ["docs"]) (Mem.start Mem.sample)
  = Ok {| total := 0; successful := 0; failed := 0; totalTime := 0 |}
  /\ trace (after (processInput (Mem.converter true None) ["docs"]) (Mem.start Mem.sample))
     = [EvCwd; EvEnsureDir "/work/.temp-downloads"; EvCwd; EvPathExists "/work/docs";
        EvStat "/work/docs"; EvReaddir "/work/docs";
        EvPathExists "/work/.temp-downloads"; EvRemove "/work/.temp-downloads"].
Proof.
  pose proof (proj1 (C8_nothing_to_convert (Mem.converter true None) ["docs"]
                       (Mem.start Mem.sample))) as H.
  cbv zeta in H.
  specialize (H (after (collectFiles (Mem.converter true None) "/work/.temp-downloads" ["docs"])
                       (after cwd (Mem.start Mem.sample))) eq_refl).
  destruct H as (_ & Hrun & _). split; [apply Hrun|]; reflexivity.
Defined.

(** C8 as stated fails: with a regular file in the place of the staging
    directory the empty input list makes the run throw; and when the staging
    directory is in use, a run whose one input expands to no file throws the
    error of the removal. *)
Lemma C8_counterexample :
  result (processInput (Mem.converter true None) []) (Mem.start Mem_blocked)
  = Throw (JsError "EEXIST: file already exists, mkdir /work/.temp-downloads")
  /\ result (collectFiles (Mem.converter true None) "/work/.temp-downloads" ["docs"])
            (after cwd (Mem.start Mem_busy))
     = Ok []
  /\ result (processInput (Mem.converter true None) ["docs"]) (Mem.start Mem_busy)
     = Throw (JsError "EBUSY: resource busy or locked, rmdir /work/.temp-downloads").
Proof. split; [|split]; vm_compute; reflexivity. Qed.

(** C6 on the sample world: a missing local path between two good ones. *)
Lemma C6_witness :
  result (processInput (Mem.converter false None) ["a.tif"; "missing.tif"; "b.tif"])
         (Mem.start Mem.sample)
  = Throw (JsError "Path does not exist: missing.tif").
Proof.
  rewrite (proj1 (proj2 (proj1 (C6_expansion_errors_are_fatal_file_errors_are_not
                                  (Mem.converter false None)
                                  ["a.tif"; "missing.tif"; "b.tif"]
                                  (Mem.start Mem.sample))
                               (JsError "Path does not exist: missing.tif")
                               (after (collectFiles (Mem.converter false None)
                                         "/work/.temp-downloads"
                                         ["a.tif"; "missing.tif"; "b.tif"])
                                      (after cwd (Mem.start Mem.sample)))
                               eq_refl))).
  reflexivity.
Defined.

(** C10 on the sample world: a run on a local file alone creates and removes
    [/work/.temp-downloads]. *)
Lemma C10_witness :
  exists mid,
    trace (after (processInput (Mem.converter false None) ["a.tif"]) (Mem.start Mem.sample))
    = ([EvCwd; EvEnsureDir "/work/.temp-downloads"] ++ mid
         ++ [EvPathExists "/work/.temp-downloads"; EvRemove "/work/.temp-downloads"])%list.
Proof.
  destruct (proj1 (C10_staging_directory_fixed_and_always_set_up
                     (Mem.converter false None) ["a.tif"] (Mem.start Mem.sample)))
    as (mid & Htr & Hrem).
  rewrite (Hrem Mem_keeps eq_refl) in Htr. exists mid. exact Htr.
Defined.

(** C10 as stated fails: with a regular file in the place of the staging
    directory, [fs.ensureDir] throws, no directory is created and the run
    ends at once; and when the staging directory is in use, the run creates
    it and leaves it behind. *)
Lemma C10_counterexample :
  @fs_stat Mem.platform "/work/.temp-downloads" Mem_blocked = Ok IsFile
  /\ @fs_ensureDir Mem.platform "/work/.temp-downloads" Mem_blocked
     = (Throw (JsError "EEXIST: file already exists, mkdir /work/.temp-downloads"),
        Mem_blocked)
  /\ result (processInput (Mem.converter false None) ["a.tif"]) (Mem.start Mem_blocked)
     = Throw (JsError "EEXIST: file already exists, mkdir /work/.temp-downloads")
  /\ trace (after (processInput (Mem.converter false None) ["a.tif"])
                  (Mem.start Mem_blocked))
     = [EvCwd; EvEnsureDir "/work/.temp-downloads";
        EvPathExists "/work/.temp-downloads"; EvRemove "/work/.temp-downloads"]
  /\ fs_stat "/work/.temp-downloads"
       (world (after (processInput (Mem.converter false None) ["a.tif"])
                     (Mem.start Mem_busy)))
     = Ok IsDirectory.
Proof. split; [|split; [|split; [|split]]]; vm_compute; reflexivity. Qed.

Example run_all_local :
  result (processInput (Mem.converter true None) ["photos"; "a.tif"; "b.tif"])
         (Mem.start Mem.sample)
  = Ok {| total := 4; successful := 2; failed := 2; totalTime := 300 |}.
Proof. vm_compute. reflexivity. Qed.

Example run_remote_folder :
  result (processInput (Mem.converter false (Some {| initialized := true |}))
            ["https://drive.google.com/drive/folders/F2"])
         (Mem.start Mem.sample)
  = Ok {| total := 1; successful := 1; failed := 0; totalTime := 110 |}.
Proof. reflexivity. Qed.

Example run_remote_without_service :
  result (processInput (Mem.converter false None)
            ["a.tif"; "https://drive.google.com/drive/folders/F2"])
         (Mem.start Mem.sample)
  = Throw (JsError "Google Drive service not initialized. Please provide credentials.").
Proof. reflexivity. Qed.

(* ================================================================== *)
(** * Further properties: the classifier's result *)
(* ================================================================== *)

Section ParserShape.
Context {P : Platform}.
Import InputParser.

Lemma strip_prefix_app (a b s r r' : string) :
  strip_prefix a s = Some r -> strip_prefix b r = Some r' ->
  strip_prefix (a ++ b) s = Some r'.
Proof.
  revert s. induction a as [|c a IH]; intros s; simpl.
  - intros H. injection H as ->. auto.
  - destruct s as [|c' s]; [discriminate|].
    destruct (Ascii.eqb c c'); [apply IH | discriminate].
Qed.

Lemma span_id_prefix (s : string) : exists r, strip_prefix (span_id s) s = Some r.
Proof.
  induction s as [|c s [r IH]]; simpl.
  - eexists. reflexivity.
  - destruct (is_id_char c); simpl.
    + rewrite Ascii.eqb_refl. eauto.
    + eexists. reflexivity.
Qed.

Lemma match_here_shape (lit s cap : string) :
  match_here lit s = Some cap ->
  (exists rest, strip_prefix lit s = Some rest /\ cap = span_id rest)
  /\ exists r, strip_prefix (lit ++ cap) s = Some r.
Proof.
  unfold match_here. destruct (strip_prefix lit s) as [rest|] eqn:E; [|discriminate].
  destruct (span_id rest) as [|c cap'] eqn:Es; [discriminate|].
  intros H. injection H as <-. split.
  - exists rest. split; [reflexivity | symmetry; exact Es].
  - destruct (span_id_prefix rest) as [r Hr]. rewrite Es in Hr.
    exists r. eapply strip_prefix_app; eassumption.
Qed.

Lemma regex_match_shape (lit s cap : string) :
  regex_match lit s = Some cap ->
  includes s (lit ++ cap) = true
  /\ forall i c, String.get i cap = Some c -> is_id_char c = true.
Proof.
  induction s as [|a s IH]; simpl.
  - destruct (match_here lit "") as [cap'|] eqn:E; [|discriminate].
    intros H. injection H as ->.
    destruct (match_here_shape _ _ _ E) as [(rest & _ & ->) [r Hr]].
    rewrite Hr. split; [reflexivity | apply span_id_class].
  - destruct (match_here lit (String a s)) as [cap'|] eqn:E.
    + intros H. injection H as ->.
      destruct (match_here_shape _ _ _ E) as [(rest & _ & ->) [r Hr]].
      rewrite Hr. split; [reflexivity | apply span_id_class].
    + intros H. destruct (IH H) as [Hinc Hcl]. split; [|exact Hcl].
      destruct (strip_prefix (lit ++ cap) (String a s)); [reflexivity | exact Hinc].
Qed.

Lemma firstMatch_origin (pats : list string) (url fid : string) :
  firstMatch pats url = Some fid ->
  exists lit, In lit pats /\ regex_match lit url = Some fid.
Proof.
  induction pats as [|pat pats IH]; simpl; [discriminate|].
  destruct (regex_match pat url) as [g|] eqn:E.
  - intros H. injection H as ->. exists pat. auto.
  - intros H. destruct (IH H) as (lit & Hin & Hm). exists lit. auto.
Qed.

(** X1: whatever the input, the classifier keeps it as [path]; [folderId] is
    present exactly when the type is [google-drive]; and a folder id is never
    empty, holds only letters, digits, [-] and [_], and stands in the input
    right after [/folders/], [id=] or [/d/]. *)
Theorem X1_parse_result_wellformed :
  forall (input : string),
    path (parse input) = input
    /\ (type (parse input) = google_drive <-> folderId (parse input) <> None)
    /\ (forall fid, folderId (parse input) = Some fid ->
          truthy fid = true
          /\ (forall i c, String.get i fid = Some c -> is_id_char c = true)
          /\ exists lit, In lit patterns /\ includes input (lit ++ fid) = true).
Proof.
  intros input. split; [apply parse_path|]. split; [apply parse_folderId_iff|].
  intros fid. unfold parse.
  destruct (URL_hostname input) as [h|]; [|discriminate].
  destruct (includes h "drive.google.com"); [|discriminate].
  destruct (extractFolderId input) as [f|] eqn:Hf; [|discriminate].
  rewrite (firstMatch_truthy _ _ _ Hf). simpl. intros H. injection H as <-.
  destruct (firstMatch_origin _ _ _ Hf) as (lit & Hin & Hm).
  destruct (regex_match_shape _ _ _ Hm) as [Hinc Hcl].
  split; [eapply firstMatch_truthy; exact Hf|]. split; [exact Hcl|].
  exists lit. split; assumption.
Qed.

End ParserShape.

(* ================================================================== *)
(** * Further properties: output paths and the [overwrite] option *)
(* ================================================================== *)

Section OutputFacts.
Context {P : Platform}.

(** X2: with an output directory configured, the output path is made of that
    directory and the input's base name without extension only: two inputs
    with the same such name, wherever they lie, get the same output path, and
    if both convert, both outcomes report that one path.  An empty string as
    output directory counts as none: the output goes beside the input. *)
Theorem X2_output_path_by_base_name :
  forall (this : ImageConverter) (d a b : string) (s s' : State) (ra rb : ConversionResult),
    outputDir (options this) = Some d ->
    (truthy d = true ->
     path_basename a (NodePath.extname a) = path_basename b (NodePath.extname b) ->
     generateOutputPath this a = generateOutputPath this b
     /\ (result (convertFile this a) s = Ok ra -> result (convertFile this b) s' = Ok rb ->
         success ra = true -> success rb = true -> outputPath ra = outputPath rb))
    /\ (d = "" ->
        generateOutputPath this a
        = path_join (path_dirname a) (path_basename a (NodePath.extname a) ++ ".jpg")).
Proof.
  intros this d a b s s' ra rb Hd. split.
  - intros Ht Hb.
    assert (Hout : generateOutputPath this a = generateOutputPath this b).
    { unfold generateOutputPath. rewrite Hd, Ht, Hb. reflexivity. }
    split; [exact Hout|].
    intros Ha Hrb Hsa Hsb.
    assert (Hpath : forall x st r, result (convertFile this x) st = Ok r ->
              success r = true -> outputPath r = generateOutputPath this x).
    { intros x st r Hr Hs.
      destruct (convertFile_cases this x st) as (r' & Hr' & _ & Hinv & Hmk & Henc & Hok).
      rewrite Hr in Hr'. injection Hr' as <-.
      destruct (passesValidation (snd (Date_now (world st))) x) eqn:Hv.
      - destruct (fst (fs_ensureDir (path_dirname (generateOutputPath this x))
                         (snd (Date_now (world st))))) as [[]|e] eqn:E1.
        + destruct (fst (sharp_toFile x (quality (options this)) (generateOutputPath this x)
                           (snd (fs_ensureDir (path_dirname (generateOutputPath this x))
                                   (snd (Date_now (world st)))))))
            as [[]|e] eqn:E2.
          * destruct (Hok eq_refl eq_refl eq_refl) as [t ->]. reflexivity.
          * destruct (Henc eq_refl eq_refl e eq_refl) as [t ->]. discriminate.
        + destruct (Hmk eq_refl e eq_refl) as [t ->]. discriminate.
      - destruct (Hinv eq_refl) as [t ->]. discriminate. }
    rewrite (Hpath _ _ _ Ha Hsa), (Hpath _ _ _ Hrb Hsb). exact Hout.
  - intros ->. unfold generateOutputPath. rewrite Hd. reflexivity.
Qed.

(** X3: the [overwrite] option is never read: a converter behaves the same
    whatever its value, in [processInput] as in [convertFiles]; an existing
    output file is written over either way. *)
Theorem X3_overwrite_option_has_no_effect :
  forall (this : ImageConverter) (b : bool) (inputs : list string) (s : State),
    processInput (withOverwrite b this) inputs s = processInput this inputs s
    /\ convertFiles (withOverwrite b this) inputs s = convertFiles this inputs s.
Proof.
  intros [[q o r ov] svc] b inputs s. split; reflexivity.
Qed.

End OutputFacts.

(* ================================================================== *)
(** * Further properties: which calls each part makes *)
(* ================================================================== *)

(** The rules of [steps] for "the trace grows by calls in [Q]" and for "the
    world stays as it is". *)
Section Discipline.
Context {P : Platform}.
Variable Q : Event -> bool.

Lemma trace_ret {A : Type} (a : A) : steps (extends Q) (ret a).
Proof. apply steps_ret. apply extends_refl. Qed.

Lemma trace_throw {A : Type} (e : exn) : steps (extends Q) (@throw P A e).
Proof. apply steps_throw. apply extends_refl. Qed.

Lemma trace_bind {A B : Type} (m : M A) (k : A -> M B) :
  steps (extends Q) m -> (forall a, steps (extends Q) (k a)) -> steps (extends Q) (bind m k).
Proof. apply steps_bind. apply extends_trans. Qed.

Lemma trace_try_catch {A : Type} (body : M A) (handler : exn -> M A) :
  steps (extends Q) body -> (forall e, steps (extends Q) (handler e)) ->
  steps (extends Q) (try_catch body handler).
Proof. apply steps_try_catch. apply extends_trans. Qed.

Lemma trace_for_of {A S : Type} (xs : list A) (body : A -> S -> M S) (acc : S) :
  (forall x a, steps (extends Q) (body x a)) -> steps (extends Q) (for_of xs body acc).
Proof. apply steps_for_of; [apply extends_refl | apply extends_trans]. Qed.

Lemma trace_reading {A : Type} (ev : Event) (f : World -> A) :
  Q ev = true -> steps (extends Q) (reading ev f).
Proof. intros H s. apply extends_log. exact H. Qed.

Lemma trace_asking {A : Type} (ev : Event) (f : World -> outcome A) :
  Q ev = true -> steps (extends Q) (asking ev f).
Proof. intros H s. apply extends_log. exact H. Qed.

Lemma trace_acting {A : Type} (ev : Event) (f : World -> outcome A * World) :
  Q ev = true -> steps (extends Q) (acting ev f).
Proof.
  intros H s. unfold after, acting. destruct (f (world s)) as [r w].
  apply extends_log. exact H.
Qed.

Lemma trace_now : Q EvDateNow = true -> steps (extends Q) now.
Proof.
  intros H s. unfold after, now. destruct (Date_now (world s)) as [t w].
  apply extends_log. exact H.
Qed.

Lemma trace_remove (p : string) : Q (EvRemove p) = true -> steps (extends Q) (remove p).
Proof. intros H. apply trace_acting. exact H. Qed.

Lemma same_ret {A : Type} (a : A) : steps sameWorld (ret a).
Proof. intros s. reflexivity. Qed.

Lemma same_throw {A : Type} (e : exn) : steps sameWorld (@throw P A e).
Proof. intros s. reflexivity. Qed.

Lemma sameWorld_trans (s1 s2 s3 : State) :
  sameWorld s1 s2 -> sameWorld s2 s3 -> sameWorld s1 s3.
Proof. unfold sameWorld. congruence. Qed.

Lemma same_bind {A B : Type} (m : M A) (k : A -> M B) :
  steps sameWorld m -> (forall a, steps sameWorld (k a)) -> steps sameWorld (bind m k).
Proof. apply steps_bind. exact sameWorld_trans. Qed.

Lemma same_try_catch {A : Type} (body : M A) (handler : exn -> M A) :
  steps sameWorld body -> (forall e, steps sameWorld (handler e)) ->
  steps sameWorld (try_catch body handler).
Proof. apply steps_try_catch. exact sameWorld_trans. Qed.

Lemma same_for_of {A S : Type} (xs : list A) (body : A -> S -> M S) (acc : S) :
  (forall x a, steps sameWorld (body x a)) -> steps sameWorld (for_of xs body acc).
Proof.
  apply steps_for_of; [intros s; reflexivity | exact sameWorld_trans].
Qed.

Lemma same_reading {A : Type} (ev : Event) (f : World -> A) : steps sameWorld (reading ev f).
Proof. intros s. reflexivity. Qed.

Lemma same_asking {A : Type} (ev : Event) (f : World -> outcome A) :
  steps sameWorld (asking ev f).
Proof. intros s. reflexivity. Qed.

End Discipline.

(** Walks through a function of the converter, call by call. *)
Ltac walk_calls :=
  unfold ensureDir, toFile, stat, metadata, cwd, pathExists, readdir, readdir_entry;
  repeat first
    [ apply trace_ret | apply trace_throw
    | apply trace_bind; [|intros ?]
    | apply trace_try_catch; [|intros ?]
    | apply trace_for_of; intros ? ?
    | apply trace_reading; reflexivity
    | apply trace_asking; reflexivity
    | apply trace_acting; reflexivity
    | apply trace_now; reflexivity
    | apply trace_remove; reflexivity
    | apply same_ret | apply same_throw
    | apply same_bind; [|intros ?]
    | apply same_try_catch; [|intros ?]
    | apply same_for_of; intros ? ?
    | apply same_reading | apply same_asking
    | match goal with
      | |- steps _ (if ?b then _ else _) => destruct b
      | |- steps _ (match ?x with _ => _ end) => destruct x
      end ].

Section CallFacts.
Context {P : Platform}.
Variable this : ImageConverter.

Lemma isValidTiffFile_conversion (p : string) :
  steps (extends conversionEvent) (isValidTiffFile p).
Proof. unfold isValidTiffFile. walk_calls. Qed.

Lemma convertFile_conversion (input : string) :
  steps (extends conversionEvent) (convertFile this input).
Proof. unfold convertFile. walk_calls. Qed.

Lemma convertFiles_conversion (inputPaths : list string) :
  steps (extends conversionEvent) (convertFiles this inputPaths).
Proof. unfold convertFiles. walk_calls. Qed.

(** X4: converting a list of files calls the clock, [fs.stat], the codec and
    [fs.ensureDir], and nothing else: it never asks whether a path exists
    (so not whether an output is already there), never lists a directory,
    never removes anything and never calls the Drive client. *)
Theorem X4_conversion_calls_only_codec_stat_ensureDir_clock :
  forall (inputPaths : list string) (s : State),
    exists evs,
      trace (after (convertFiles this inputPaths) s) = (trace s ++ evs)%list
      /\ forall ev, In ev evs ->
           match ev with
           | EvDateNow | EvStat _ | EvSharpMetadata _ | EvEnsureDir _
           | EvSharpToFile _ _ _ => True
           | _ => False
           end.
Proof.
  intros inputPaths s.
  destruct (convertFiles_conversion inputPaths s) as (evs & Htr & Hall).
  exists evs. split; [exact Htr|].
  rewrite forallb_forall in Hall. intros ev Hin. specialize (Hall ev Hin).
  destruct ev; simpl in Hall; try exact I; discriminate.
Qed.

End CallFacts.

Section ConvertFileCalls.
Context {P : Platform}.
Variable this : ImageConverter.

Lemma isValidTiffFile_full (p : string) (s : State) :
  isValidTiffFile p s
  = (Ok (passesValidation (world s) p),
     {| world := world s; trace := (trace s ++ validationCalls (world s) p)%list |}).
Proof.
  unfold isValidTiffFile, passesValidation, validationCalls, isRegularFile, probesAsTiff.
  unfold try_catch, bind, stat, metadata, asking, ret, log. cbn [world trace].
  destruct (fs_stat p (world s)) as [k|e]; cbn [andb]; [|reflexivity].
  destruct (isFile k); cbn [negb andb]; [|reflexivity].
  destruct (hasTiffExtension p); cbn [negb andb]; [|reflexivity].
  cbn [world trace]. rewrite <- app_assoc.
  destruct (sharp_metadata p (world s)) as [md|e]; reflexivity.
Qed.

(** X5: the calls of [convertFile], in order.  The extension is tested
    before the metadata is probed, so the codec never opens a file that is
    not a regular file with a TIFF extension.  A file that fails validation
    costs two clock readings and leaves everything else as it was: no
    directory is created and the encoder is not called.  A file that passes
    has its output directory ensured before it is encoded; nothing is undone
    when the encoding fails, so that, where only [fs.remove] deletes, the
    directory that was ensured is there afterwards, whether the file was
    encoded or not. *)
Theorem X5_convertFile_calls_in_order :
  forall (input : string) (s : State),
    let w1 := snd (Date_now (world s)) in
    let out := generateOutputPath this input in
    let mk := fs_ensureDir (path_dirname out) w1 in
    let enc := sharp_toFile input (quality (options this)) out (snd mk) in
    let final := after (convertFile this input) s in
    (passesValidation w1 input = false ->
     trace final = (trace s ++ [EvDateNow] ++ validationCalls w1 input ++ [EvDateNow])%list
     /\ world final = snd (Date_now w1))
    /\ (passesValidation w1 input = true ->
        trace final
        = (trace s ++ [EvDateNow; EvStat input; EvSharpMetadata input;
                       EvEnsureDir (path_dirname out)]
             ++ (match fst mk with
                 | Ok _ => [EvSharpToFile input (quality (options this)) out]
                 | Throw _ => []
                 end)
             ++ [EvDateNow])%list
        /\ world final
           = snd (Date_now (match fst mk with
                            | Ok _ => snd enc
                            | Throw _ => snd mk
                            end)))
    /\ (PlatformKeeps P ->
        passesValidation w1 input = true ->
        fst mk = Ok tt ->
        fs_pathExists (path_dirname out) (world final) = true
        /\ forall e, fst enc = Throw e ->
             exists elapsed,
               result (convertFile this input) s
               = Ok (failedResult input (message_of e) elapsed)).
Proof.
  intros input s w1 out mk enc final.
  assert (Hmain :
    (passesValidation w1 input = false ->
     trace final = (trace s ++ [EvDateNow] ++ validationCalls w1 input ++ [EvDateNow])%list
     /\ world final = snd (Date_now w1))
    /\ (passesValidation w1 input = true ->
        trace final
        = (trace s ++ [EvDateNow; EvStat input; EvSharpMetadata input;
                       EvEnsureDir (path_dirname out)]
             ++ (match fst mk with
                 | Ok _ => [EvSharpToFile input (quality (options this)) out]
                 | Throw _ => []
                 end)
             ++ [EvDateNow])%list
        /\ world final
           = snd (Date_now (match fst mk with
                            | Ok _ => snd enc
                            | Throw _ => snd mk
                            end)))).
  { subst final mk enc.
  unfold after, convertFile, try_catch, bind, now, throw, ret, ensureDir, toFile, acting.
  destruct (Date_now (world s)) as [t0 w] eqn:Hnow. subst w1. cbn [snd].
  rewrite isValidTiffFile_full. cbn [world trace log]. fold out.
  split; intros Hv; rewrite Hv; cbn [negb world trace log].
  - destruct (Date_now w) as [t1 w']. cbn [snd world trace log].
    split; [|reflexivity]. rewrite <- !app_assoc. reflexivity.
  - assert (Hcalls : validationCalls w input = [EvStat input; EvSharpMetadata input]).
    { unfold validationCalls. unfold passesValidation in Hv.
      apply andb_prop in Hv as [Hv _]. rewrite Hv. reflexivity. }
    rewrite Hcalls.
    destruct (fs_ensureDir (path_dirname out) w) as [[[]|e1] w2]; cbn [fst snd world trace log].
    + destruct (sharp_toFile input (quality (options this)) out w2) as [[[]|e2] w3];
        cbn [fst snd world trace log];
        destruct (Date_now w3) as [t1 w4]; cbn [snd world trace log];
        (split; [|reflexivity]); rewrite <- !app_assoc; reflexivity.
    + destruct (Date_now w2) as [t1 w3]. cbn [snd world trace log].
      split; [|reflexivity]. rewrite <- !app_assoc. reflexivity. }
  destruct Hmain as [Hfails Hpasses]. split; [exact Hfails|]. split; [exact Hpasses|].
  intros K Hv Hmk. split.
  - destruct (Hpasses Hv) as [_ Hw]. rewrite Hw, Hmk.
    apply keeps_now. subst enc. apply keeps_toFile.
    subst mk. apply ensureDir_creates. exact Hmk.
  - intros e Henc.
    destruct (convertFile_cases this input s) as (r & Hr & _ & _ & _ & Hcodec & _).
    fold w1 in Hcodec. fold out in Hcodec.
    destruct (Hcodec Hv Hmk e Henc) as [elapsed ->].
    exists elapsed. exact Hr.
Qed.

End ConvertFileCalls.

(* ================================================================== *)
(** * Further properties: the Drive service and the Remote Fetcher *)
(* ================================================================== *)

Section DriveFacts.
Context {P : Platform}.

Lemma listTiffFiles_run (folder : string) (s : State) :
  let raw := drive_files_list (GoogleDrive.listQuery folder) (world s) in
  GoogleDrive.listTiffFiles folder s
  = (match fst raw with
     | Ok (Some fs) => Ok fs
     | Ok None => Ok []
     | Throw e => Throw (JsError ("Failed to list files: " ++ to_text e))
     end,
     log (EvDriveList (GoogleDrive.listQuery folder)) s (snd raw)).
Proof.
  unfold GoogleDrive.listTiffFiles, try_catch, bind, acting, ret, throw.
  destruct (drive_files_list (GoogleDrive.listQuery folder) (world s)) as [[[fs|]|e] w];
    reflexivity.
Qed.

(** X6: [listTiffFiles] makes one listing call.  It returns the files the
    Drive client reports, or the empty list when the response has no [files]
    field; whatever the client throws comes out as an [Error] whose message
    starts with [Failed to list files: ], and nothing else is ever thrown. *)
Theorem X6_listTiffFiles_wraps_errors_and_defaults_to_empty :
  forall (folder : string) (s : State),
    let raw := drive_files_list (GoogleDrive.listQuery folder) (world s) in
    after (GoogleDrive.listTiffFiles folder) s
      = log (EvDriveList (GoogleDrive.listQuery folder)) s (snd raw)
    /\ (forall fs, fst raw = Ok (Some fs) ->
          result (GoogleDrive.listTiffFiles folder) s = Ok fs)
    /\ (fst raw = Ok None -> result (GoogleDrive.listTiffFiles folder) s = Ok [])
    /\ (forall e, result (GoogleDrive.listTiffFiles folder) s = Throw e ->
          exists cause, fst raw = Throw cause
                        /\ e = JsError ("Failed to list files: " ++ to_text cause)).
Proof.
  intros folder s raw. unfold after, result. rewrite listTiffFiles_run. fold raw.
  cbn [fst snd]. split; [reflexivity|]. split; [|split].
  - intros fs ->. reflexivity.
  - intros ->. reflexivity.
  - intros e. destruct (fst raw) as [[fs|]|cause]; try discriminate.
    intros H. injection H as <-. exists cause. split; reflexivity.
Qed.

Lemma downloadFile_run (fileId dest : string) (s : State) :
  let got := drive_files_get fileId (world s) in
  let piped := drive_stream_to fileId dest (snd got) in
  GoogleDrive.downloadFile fileId dest s
  = match fst got with
    | Ok _ =>
        (fst piped,
         log (EvDriveStream fileId dest) (log (EvDriveGet fileId) s (snd got)) (snd piped))
    | Throw e =>
        (Throw (JsError ("Failed to download file: " ++ to_text e)),
         log (EvDriveGet fileId) s (snd got))
    end.
Proof.
  unfold GoogleDrive.downloadFile, try_catch, bind, acting, throw.
  destruct (drive_files_get fileId (world s)) as [[[]|e] w]; cbn [fst snd world log]; [|reflexivity].
  destruct (drive_stream_to fileId dest w) as [r w']. reflexivity.
Qed.

(** X7: [downloadFile] first requests the file.  If the request fails, the
    error is wrapped in an [Error] whose message starts with
    [Failed to download file: ] and the destination is never written to.
    If the request succeeds, the response is piped to the destination, and
    an error of that stream reaches the caller as it is, not wrapped. *)
Theorem X7_downloadFile_wraps_request_errors_only :
  forall (fileId dest : string) (s : State),
    let got := drive_files_get fileId (world s) in
    let piped := drive_stream_to fileId dest (snd got) in
    (forall e, fst got = Throw e ->
       result (GoogleDrive.downloadFile fileId dest) s
         = Throw (JsError ("Failed to download file: " ++ to_text e))
       /\ after (GoogleDrive.downloadFile fileId dest) s = log (EvDriveGet fileId) s (snd got))
    /\ (fst got = Ok tt ->
        result (GoogleDrive.downloadFile fileId dest) s = fst piped
        /\ trace (after (GoogleDrive.downloadFile fileId dest) s)
           = (trace s ++ [EvDriveGet fileId; EvDriveStream fileId dest])%list
        /\ world (after (GoogleDrive.downloadFile fileId dest) s) = snd piped).
Proof.
  intros fileId dest s got piped. unfold result, after. rewrite downloadFile_run.
  fold got. fold piped. split.
  - intros e ->. split; reflexivity.
  - intros ->. cbn [fst snd world trace log]. rewrite <- app_assoc. repeat split.
Qed.

Variable this : ImageConverter.

Lemma download_loop (tempDir : string) (files : list GoogleDriveFile) :
  forall (acc paths : list string) (s s' : State),
    for_of files (downloadInto tempDir) acc s = (Ok paths, s') ->
    paths = (acc ++ map (stagedPath tempDir) files)%list
    /\ trace s' = (trace s ++ fetchCalls tempDir files)%list.
Proof.
  induction files as [|f files IH]; intros acc paths s s' H.
  - rewrite for_of_nil in H. unfold ret in H. injection H as <- <-.
    simpl. rewrite !app_nil_r. split; reflexivity.
  - rewrite for_of_cons in H. unfold bind at 1 in H. unfold downloadInto at 1 in H.
    unfold bind at 1 in H. rewrite downloadFile_run in H.
    destruct (fst (drive_files_get (id f) (world s))) as [[]|e]; [|discriminate].
    destruct (fst (drive_stream_to (id f) (path_join tempDir (name f))
                     (snd (drive_files_get (id f) (world s))))) as [[]|e]; [|discriminate].
    unfold ret at 1 in H. apply IH in H as [-> ->].
    cbn [trace log map fetchCalls flat_map]. unfold stagedPath.
    rewrite <- !app_assoc. split; reflexivity.
Qed.

(** X8: without an initialized Drive service [processGoogleDriveFolder]
    throws at once and calls nothing.  When it returns, it returns one
    staged path per listed file, in listing order, each the staging directory
    joined with the remote file's name, and it has requested and piped each
    file once, in that order. *)
Theorem X8_fetch_returns_one_staged_path_per_listed_file :
  forall (folder tempDir : string) (s : State),
    (serviceReady this = false ->
     processGoogleDriveFolder this folder tempDir s
     = (Throw (JsError "Google Drive service not properly initialized. Please provide valid credentials."),
        s))
    /\ (forall files s1 paths s2,
          serviceReady this = true ->
          GoogleDrive.listTiffFiles folder s = (Ok files, s1) ->
          processGoogleDriveFolder this folder tempDir s = (Ok paths, s2) ->
          paths = map (stagedPath tempDir) files
          /\ trace s2
             = (trace s ++ EvDriveList (GoogleDrive.listQuery folder)
                  :: fetchCalls tempDir files)%list).
Proof.
  intros folder tempDir s. split.
  - intros H. unfold processGoogleDriveFolder. rewrite H. reflexivity.
  - intros files s1 paths s2 Hready Hlist Hrun.
    unfold processGoogleDriveFolder in Hrun. rewrite Hready in Hrun. cbn [negb] in Hrun.
    rewrite (run_bind Hlist) in Hrun.
    apply download_loop in Hrun as [-> ->]. split; [reflexivity|].
    rewrite listTiffFiles_run in Hlist. injection Hlist as _ <-.
    cbn [trace log]. rewrite <- app_assoc. reflexivity.
Qed.

End DriveFacts.

(* ================================================================== *)
(** * Further properties: the Local Expander *)
(* ================================================================== *)

Section LocalFacts.
Context {P : Platform}.

(** The scan of an entry preserves every relation that reading a directory
    preserves. *)
Lemma findTiffFiles_item_steps (R : State -> State -> Prop) :
  (forall s, R s s) ->
  (forall s1 s2 s3, R s1 s2 -> R s2 s3 -> R s1 s3) ->
  (forall p l, steps R (readdir_entry p l)) ->
  forall item directory, steps R (findTiffFiles_item directory item).
Proof.
  intros R_refl R_trans Hrd.
  induction item as [n | n | n e | n items IH] using Dirent_tree_ind;
    intros directory; simpl.
  - destruct (hasTiffExtension n); apply steps_ret; assumption.
  - apply steps_ret; assumption.
  - apply steps_bind; [assumption | apply Hrd | intros; apply steps_ret; assumption].
  - apply steps_bind; [assumption | apply Hrd |].
    intros _. revert IH. generalize (@nil string).
    induction items as [|it items IHitems]; intros acc IH.
    + apply steps_ret; assumption.
    + rewrite for_of_cons. inversion IH as [|? ? Hit Hrest]; subst.
      apply steps_bind; [assumption | |].
      * apply steps_bind; [assumption | apply Hit | intros; apply steps_ret; assumption].
      * intros acc'. apply IHitems. exact Hrest.
Qed.

Variable this : ImageConverter.

Lemma processLocalPath_local (input : string) :
  steps (extends localEvent) (processLocalPath this input).
Proof.
  unfold processLocalPath, findTiffFiles, findTiffFiles_deep. walk_calls.
  apply findTiffFiles_item_steps;
    [apply extends_refl | apply extends_trans | intros; apply trace_asking; reflexivity].
Qed.

Lemma processLocalPath_sameWorld (input : string) :
  steps sameWorld (processLocalPath this input).
Proof.
  unfold processLocalPath, findTiffFiles, findTiffFiles_deep. walk_calls.
  apply findTiffFiles_item_steps;
    [intros s; reflexivity | exact sameWorld_trans | intros; apply same_asking].
Qed.

(** X9: expanding a local path only reads: whatever it returns or throws,
    the world is as before, and the only calls are [process.cwd],
    [fs.pathExists], [fs.stat] and [fs.readdir]. *)
Theorem X9_local_expansion_only_reads :
  forall (input : string) (s : State),
    world (after (processLocalPath this input) s) = world s
    /\ exists evs,
         trace (after (processLocalPath this input) s) = (trace s ++ evs)%list
         /\ forall ev, In ev evs ->
              match ev with
              | EvCwd | EvPathExists _ | EvStat _ | EvReaddir _ => True
              | _ => False
              end.
Proof.
  intros input s. split; [apply processLocalPath_sameWorld|].
  destruct (processLocalPath_local input s) as (evs & Htr & Hall).
  exists evs. split; [exact Htr|].
  rewrite forallb_forall in Hall. intros ev Hin. specialize (Hall ev Hin).
  destruct ev; simpl in Hall; try exact I; discriminate.
Qed.

(** An entry with no listing error below it is listable, and the scan of one
    with such an error throws the first of them. *)
Lemma findTiffFiles_item_first_error (item : Dirent) :
  match firstListingError item with
  | Some e => forall directory s, result (findTiffFiles_item directory item) s = Throw e
  | None => listable item = true
  end.
Proof.
  induction item as [n | n | n e | n items IH] using Dirent_tree_ind; simpl; try reflexivity.
  assert (Hloop :
            match firstListingErrorIn items with
            | Some e =>
                forall directory acc s,
                  result (for_of items
                            (fun it files =>
                               subFiles <- findTiffFiles_item directory it ;;
                               ret (files ++ subFiles)%list) acc) s = Throw e
            | None => forallb listable items = true
            end).
  { unfold firstListingErrorIn.
    induction items as [|it items IHitems]; cbn [fold_right forallb]; [reflexivity|].
    inversion IH as [|? ? Hit Hrest]; subst. specialize (IHitems Hrest).
    destruct (firstListingError it) as [e|] eqn:Eit.
    - intros directory acc s. rewrite for_of_cons. unfold result, bind.
      specialize (Hit directory s). unfold result in Hit.
      destruct (findTiffFiles_item directory it s) as [o s1].
      cbn [fst] in Hit. subst o. reflexivity.
    - destruct (fold_right _ None items) as [e|] eqn:Erest.
      + intros directory acc s.
        destruct (findTiffFiles_item_run it Hit directory s) as [Hr _].
        rewrite for_of_cons. unfold result, bind in *.
        destruct (findTiffFiles_item directory it s) as [o s1]. cbn [fst] in Hr. subst o.
        unfold ret at 1. apply IHitems.
      + rewrite Hit. exact IHitems. }
  unfold firstListingErrorIn in Hloop.
  destruct (fold_right _ None items) as [e|] eqn:E; [|exact Hloop].
  intros directory s. unfold result, bind, readdir_entry, asking. cbn [fst snd].
  apply Hloop.
Qed.

End LocalFacts.

Section RecursionFacts.
Context {P : Platform}.

Lemma findTiffFiles_loop_first_error (items : list Dirent) (e : exn) :
  firstListingErrorIn items = Some e ->
  forall directory acc s,
    result (for_of items
              (fun it files =>
                 subFiles <- findTiffFiles_item directory it ;;
                 ret (files ++ subFiles)%list) acc) s = Throw e.
Proof.
  unfold firstListingErrorIn.
  induction items as [|it items IH]; cbn [fold_right]; [discriminate|].
  pose proof (findTiffFiles_item_first_error it) as Hit.
  destruct (firstListingError it) as [e'|] eqn:Eit.
  - intros H directory acc s. injection H as ->.
    rewrite for_of_cons. unfold result, bind.
    specialize (Hit directory s). unfold result in Hit.
    destruct (findTiffFiles_item directory it s) as [o s1].
    cbn [fst] in Hit. subst o. reflexivity.
  - intros H directory acc s.
    destruct (findTiffFiles_item_run it Hit directory s) as [Hr _].
    rewrite for_of_cons. unfold result, bind in *.
    destruct (findTiffFiles_item directory it s) as [o s1]. cbn [fst] in Hr. subst o.
    unfold ret at 1. apply IH. exact H.
Qed.

(** [processLocalPath] on an existing path, up to the test of its kind. *)
Lemma processLocalPath_head (this : ImageConverter) (input : string) (s : State) (k : FileKind) :
  let resolved := path_resolve (process_cwd (world s)) input in
  fs_pathExists resolved (world s) = true ->
  fs_stat resolved (world s) = Ok k ->
  processLocalPath this input s
  = (if isFile k then ret [resolved]
     else if isDirectory k then findTiffFiles this resolved
     else ret [])
      (log (EvStat resolved)
           (log (EvPathExists resolved) (log EvCwd s (world s)) (world s))
           (world s)).
Proof.
  intros resolved Hex Hst. unfold processLocalPath.
  rewrite (run_bind (run_cwd s)). fold resolved.
  rewrite (run_bind (run_pathExists resolved _)). cbn [world log].
  rewrite Hex. cbn [negb].
  erewrite run_bind; [reflexivity|].
  rewrite run_stat. cbn [world log]. rewrite Hst. reflexivity.
Qed.

(** X10: when the [recursive] option is set and a directory somewhere below
    the one expanded cannot be listed, the expansion throws the error of the
    first such directory, depth first, and returns none of the files it had
    found; without the option the same tree expands to its top-level files,
    the subdirectories not being read. *)
Theorem X10_unreadable_subdirectory_aborts_recursive_expansion :
  forall (this : ImageConverter) (input : string) (s : State) (items : list Dirent) (e : exn),
    let resolved := path_resolve (process_cwd (world s)) input in
    fs_pathExists resolved (world s) = true ->
    fs_stat resolved (world s) = Ok IsDirectory ->
    fs_readdir resolved (world s) = Ok items ->
    firstListingErrorIn items = Some e ->
    (recursive (options this) = true ->
     result (processLocalPath this input) s = Throw e)
    /\ (recursive (options this) = false ->
        result (processLocalPath this input) s
        = Ok (map (fun item => path_join resolved (dirent_name item))
                  (filter qualifies items))).
Proof.
  intros this input s items e resolved Hex Hst Hrd Herr.
  unfold result. rewrite (processLocalPath_head this input s IsDirectory Hex Hst).
  cbn [isFile isDirectory]. fold resolved. unfold findTiffFiles.
  split; intros ->.
  - erewrite run_bind; [|rewrite run_readdir; cbn [world log]; rewrite Hrd; reflexivity].
    apply (findTiffFiles_loop_first_error items e Herr).
  - erewrite run_bind; [|rewrite run_readdir; cbn [world log]; rewrite Hrd; reflexivity].
    unfold ret. cbn [fst]. rewrite findTiffFiles_flat_filter. reflexivity.
Qed.

Lemma depthFirst_without_subdirectory (directory : string) (items : list Dirent) :
  noSubdirectory items = true ->
  depthFirst directory items
  = map (fun item => path_join directory (dirent_name item)) (filter qualifies items).
Proof.
  unfold noSubdirectory, depthFirst.
  induction items as [|it items IH]; cbn [forallb flat_map filter map]; [reflexivity|].
  intros H. apply andb_prop in H as [Hit Hrest]. rewrite (IH Hrest).
  destruct it as [n | n l | n]; cbn in Hit; try discriminate; unfold qualifies; cbn.
  - destruct (hasTiffExtension n); reflexivity.
  - reflexivity.
Qed.

(** X11: on a tree that can be read throughout, the [recursive] option only
    adds files: every path the non-recursive search returns is returned by
    the recursive one; and on a directory without subdirectories both
    searches return the same list. *)
Theorem X11_recursive_search_extends_flat_search :
  forall (flat deep : ImageConverter) (directory : string) (s : State) (items : list Dirent),
    recursive (options flat) = false ->
    recursive (options deep) = true ->
    fs_readdir directory (world s) = Ok items ->
    forallb listable items = true ->
    exists (top all : list string),
      result (findTiffFiles flat directory) s = Ok top
      /\ result (findTiffFiles deep directory) s = Ok all
      /\ incl top all
      /\ (noSubdirectory items = true -> all = top).
Proof.
  intros flat deep directory s items Hflat Hdeep Hrd Hl.
  exists (map (fun item => path_join directory (dirent_name item)) (filter qualifies items)),
         (depthFirst directory items).
  split; [|split; [|split]].
  - unfold result, findTiffFiles. rewrite Hflat.
    erewrite run_bind; [|rewrite run_readdir; rewrite Hrd; reflexivity].
    unfold ret. cbn [fst]. rewrite findTiffFiles_flat_filter. reflexivity.
  - unfold result, findTiffFiles. rewrite Hdeep.
    erewrite run_bind; [|rewrite run_readdir; rewrite Hrd; reflexivity].
    apply findTiffFiles_deep_run. exact Hl.
  - intros p Hp. apply depthFirst_expands. apply flat_expands in Hp.
    inversion Hp as [d its n Hin Hext | d its n sub q Hd]; subst; [|discriminate].
    apply Expands_file; assumption.
  - intros H. apply depthFirst_without_subdirectory. exact H.
Qed.

End RecursionFacts.

(* ================================================================== *)
(** * Further properties: the whole run *)
(* ================================================================== *)

Section RunFacts.
Context {P : Platform}.
Variable this : ImageConverter.

Lemma steps_weaken {A : Type} (Q Q' : Event -> bool) (m : M A) :
  (forall ev, Q ev = true -> Q' ev = true) ->
  steps (extends Q) m -> steps (extends Q') m.
Proof. intros HQ Hm s. eapply extends_weaken; [exact HQ | apply Hm]. Qed.

Lemma local_notDrive (ev : Event) : localEvent ev = true -> notDrive ev = true.
Proof. destruct ev; simpl; intros H; try reflexivity; discriminate. Qed.

Lemma conversion_notDrive (ev : Event) : conversionEvent ev = true -> notDrive ev = true.
Proof. destruct ev; simpl; intros H; try reflexivity; discriminate. Qed.

Lemma local_loop_notDrive (tempDir : string) (inputs : list string) :
  Forall (fun x => type (InputParser.parse x) = local) inputs ->
  forall acc, steps (extends notDrive) (for_of inputs (expandInput this tempDir) acc).
Proof.
  induction 1 as [|x inputs Hx _ IH]; intros acc.
  - apply trace_ret.
  - rewrite for_of_cons. apply trace_bind; [|intros a; apply IH].
    unfold expandInput. rewrite Hx.
    apply trace_bind; [|intros; apply trace_ret].
    apply steps_weaken with localEvent; [exact local_notDrive|].
    apply processLocalPath_local.
Qed.

(** X12: a run whose inputs are all classified as local never calls the
    Drive client, whether or not a Drive service is configured: nothing is
    listed or downloaded. *)
Theorem X12_local_inputs_never_reach_the_drive :
  forall (inputs : list string) (s : State),
    Forall (fun x => type (InputParser.parse x) = local) inputs ->
    exists evs,
      trace (after (processInput this inputs) s) = (trace s ++ evs)%list
      /\ forall ev, In ev evs -> driveEvent ev = false.
Proof.
  intros inputs s Hlocal.
  assert (Hsteps : steps (extends notDrive) (processInput this inputs)).
  { unfold processInput.
    apply trace_bind; [apply trace_reading; reflexivity|]. intros dir.
    unfold try_finally. intros st. unfold after.
    match goal with
    | |- extends _ _ (snd (let (r, s') := ?body st in _)) =>
        assert (Hbody : steps (extends notDrive) body)
    end.
    { apply trace_bind.
      - unfold collectFiles. apply trace_bind; [apply trace_acting; reflexivity|].
        intros _. apply local_loop_notDrive. exact Hlocal.
      - intros files. destruct (Z.of_nat (List.length files) =? 0)%Z; [apply trace_ret|].
        apply steps_weaken with conversionEvent; [exact conversion_notDrive|].
        apply convertFiles_conversion. }
    specialize (Hbody st). unfold after in Hbody.
    match goal with
    | |- extends _ _ (snd (let (r, s') := ?body st in _)) => destruct (body st) as [r s']
    end.
    cbn [snd] in Hbody.
    assert (Hclean : steps (extends notDrive) (cleanup (tempDirOf dir)))
      by (unfold cleanup; walk_calls).
    specialize (Hclean s'). unfold after in Hclean.
    destruct (cleanup (tempDirOf dir) s') as [[[]|e] s'']; cbn [snd] in *;
      eapply extends_trans; eassumption. }
  destruct (Hsteps s) as (evs & Htr & Hall). exists evs. split; [exact Htr|].
  rewrite forallb_forall in Hall. intros ev Hin. specialize (Hall ev Hin).
  unfold notDrive in Hall. destruct (driveEvent ev); [discriminate | reflexivity].
Qed.

(** X13: the statistics a run returns add up: [total] is the number of
    candidate files the expansion produced and equals
    [successful + failed], neither of which is negative. *)
Theorem X13_run_statistics_add_up :
  forall (inputs : list string) (s : State) (stats : ConversionStats),
    result (processInput this inputs) s = Ok stats ->
    total stats = successful stats + failed stats
    /\ 0 <= successful stats
    /\ 0 <= failed stats
    /\ exists files s1,
         collectFiles this (tempDirOf (process_cwd (world s))) inputs (after cwd s)
           = (Ok files, s1)
         /\ total stats = Z.of_nat (List.length files).
Proof.
  intros inputs s stats. unfold result at 1. rewrite processInput_run. cbn [fst].
  intros H.
  assert (Hb : result (tryBlock this (tempDirOf (process_cwd (world s))) inputs)
                      (after cwd s) = Ok stats).
  { match type of H with
    | settle _ ?c = _ => destruct c as [[]|e]; cbn [settle] in H; [exact H | discriminate]
    end. }
  clear H. revert Hb. unfold result, tryBlock, bind.
  destruct (collectFiles this (tempDirOf (process_cwd (world s))) inputs (after cwd s))
    as [[files|e] s1] eqn:Hc; [|discriminate].
  destruct (Z.of_nat (List.length files) =? 0)%Z eqn:Hlen.
  - unfold ret. cbn [fst]. intros H. injection H as <-. cbn.
    repeat split; try lia. exists files, s1. split; [reflexivity|].
    apply Z.eqb_eq in Hlen. lia.
  - destruct (convertFiles_run this files s1) as (rs & _ & Hmap & Hrun).
    rewrite Hrun. cbn [fst]. intros H. injection H as <-. cbn.
    pose proof (successes_failures rs) as Hsum.
    assert (Hl : List.length rs = List.length files)
      by (rewrite <- Hmap, length_map; reflexivity).
    repeat split; try lia. exists files, s1. split; reflexivity.
Qed.

Lemma expandInput_accumulates (tempDir x : string) (acc : list string) (s : State) :
  expandInput this tempDir x acc s
  = (match fst (expandInput this tempDir x [] s) with
     | Ok fs => Ok (acc ++ fs)%list
     | Throw e => Throw e
     end,
     snd (expandInput this tempDir x [] s)).
Proof.
  unfold expandInput. destruct (type (InputParser.parse x)).
  - unfold bind, ret. destruct (processLocalPath this _ s) as [[fs|e] s']; reflexivity.
  - destruct (googleDriveService this); [|reflexivity].
    unfold bind, ret. destruct (processGoogleDriveFolder this _ tempDir s) as [[fs|e] s'];
      reflexivity.
Qed.

Lemma expansion_loop_accumulates (tempDir : string) (inputs : list string) :
  forall (acc : list string) (s : State),
    for_of inputs (expandInput this tempDir) acc s
    = (match fst (for_of inputs (expandInput this tempDir) [] s) with
       | Ok fs => Ok (acc ++ fs)%list
       | Throw e => Throw e
       end,
       snd (for_of inputs (expandInput this tempDir) [] s)).
Proof.
  induction inputs as [|x inputs IH]; intros acc s.
  - rewrite !for_of_nil. unfold ret. cbn [fst snd]. rewrite app_nil_r. reflexivity.
  - rewrite !for_of_cons. unfold bind.
    rewrite (expandInput_accumulates tempDir x acc s).
    destruct (expandInput this tempDir x [] s) as [[fs|e] s1]; cbn [fst snd]; [|reflexivity].
    rewrite (IH (acc ++ fs)%list s1), (IH fs s1).
    destruct (for_of inputs (expandInput this tempDir) [] s1) as [[more|e] s2];
      cbn [fst snd]; [|reflexivity].
    rewrite app_assoc. reflexivity.
Qed.

(** X14: the candidate list is built in input order and nothing is dropped
    from it: the expansion of [xs ++ ys] is the expansion of [xs], then that
    of [ys] run in the state the first left, and its list is the first list
    followed by the second.  In particular an input given twice is expanded
    twice. *)
Theorem X14_expansion_concatenates_in_input_order :
  forall (tempDir : string) (xs ys : list string) (s s' : State) (files : list string),
    for_of (xs ++ ys) (expandInput this tempDir) [] s = (Ok files, s') ->
    exists (fx fy : list string) (s1 : State),
      for_of xs (expandInput this tempDir) [] s = (Ok fx, s1)
      /\ for_of ys (expandInput this tempDir) [] s1 = (Ok fy, s')
      /\ files = (fx ++ fy)%list.
Proof.
  intros tempDir xs ys.
  assert (Hgen : forall acc s s' files,
            for_of (xs ++ ys) (expandInput this tempDir) acc s = (Ok files, s') ->
            exists mid s1,
              for_of xs (expandInput this tempDir) acc s = (Ok mid, s1)
              /\ for_of ys (expandInput this tempDir) mid s1 = (Ok files, s')).
  { induction xs as [|x xs IH]; intros acc s s' files H.
    - exists acc, s. split; [reflexivity | exact H].
    - cbn [app] in H. rewrite for_of_cons in H. unfold bind at 1 in H.
      destruct (expandInput this tempDir x acc s) as [[a|e] s0] eqn:Hx; [|discriminate].
      destruct (IH a s0 s' files H) as (mid & s1 & Hxs & Hys).
      exists mid, s1. split; [|exact Hys].
      rewrite for_of_cons. unfold bind at 1. rewrite Hx. exact Hxs. }
  intros s s' files H.
  destruct (Hgen [] s s' files H) as (fx & s1 & Hxs & Hys).
  rewrite expansion_loop_accumulates in Hys.
  destruct (for_of ys (expandInput this tempDir) [] s1) as [[fy|e] s2] eqn:Ey;
    cbn [fst snd] in Hys; [|discriminate].
  injection Hys as <- <-. exists fx, fy, s1.
  split; [exact Hxs|]. split; [exact Ey | reflexivity].
Qed.

End RunFacts.

Section StagingLifetime.
Context {P : Platform}.
Variable this : ImageConverter.

Ltac keeps_calls :=
  try reflexivity; unfold keeps; cbn [world log]; intros;
  first [ assumption
        | apply keeps_now; assumption
        | apply keeps_ensureDir; assumption
        | apply keeps_toFile; assumption
        | apply keeps_list; assumption
        | apply keeps_get; assumption
        | apply keeps_stream; assumption
        | auto ].

Lemma expansion_loop_keeps (K : PlatformKeeps P) (p tempDir : string) (inputs : list string)
      (acc : list string) :
  steps (keeps p) (for_of inputs (expandInput this tempDir) acc).
Proof.
  apply steps_for_of; [apply keeps_refl | apply keeps_trans|].
  intros x a. apply steps_expandInput with (allowed := anyEvent); keeps_calls.
Qed.

Lemma convertFiles_keeps (K : PlatformKeeps P) (p : string) (files : list string) :
  steps (keeps p) (convertFiles this files).
Proof. apply steps_convertFiles with (allowed := anyEvent); keeps_calls. Qed.

(** X15: on a platform where only [fs.remove] deletes, the staging directory
    is there for as long as it is needed: it exists when the expansion has
    finished and still exists when the last file has been converted; the
    run then asks for it and removes it, as its last two calls. *)
Theorem X15_staging_directory_lives_until_the_cleanup :
  forall (K : PlatformKeeps P) (inputs : list string) (s : State)
         (files : list string) (s1 : State),
    let tempDir := tempDirOf (process_cwd (world s)) in
    let converted := if (Z.of_nat (List.length files) =? 0)%Z then s1
                     else after (convertFiles this files) s1 in
    collectFiles this tempDir inputs (after cwd s) = (Ok files, s1) ->
    fs_pathExists tempDir (world s1) = true
    /\ fs_pathExists tempDir (world converted) = true
    /\ trace (after (processInput this inputs) s)
       = (trace converted ++ [EvPathExists tempDir; EvRemove tempDir])%list.
Proof.
  intros K inputs s files s1 tempDir converted Hc.
  assert (H1 : fs_pathExists tempDir (world s1) = true).
  { unfold collectFiles in Hc. unfold bind at 1 in Hc. rewrite run_ensureDir in Hc.
    destruct (fst (fs_ensureDir tempDir (world (after cwd s)))) as [[]|e] eqn:Hmk;
      [|discriminate].
    cbv beta iota in Hc.
    pose proof (expansion_loop_keeps K tempDir tempDir inputs []
                  (log (EvEnsureDir tempDir) (after cwd s)
                       (snd (fs_ensureDir tempDir (world (after cwd s)))))) as Hk.
    unfold after in Hk, Hc, Hmk. rewrite Hc in Hk. cbn [snd] in Hk. apply Hk.
    cbn [world log]. apply ensureDir_creates. exact Hmk. }
  assert (H2 : fs_pathExists tempDir (world converted) = true).
  { subst converted. destruct (Z.of_nat (List.length files) =? 0)%Z; [exact H1|].
    apply (convertFiles_keeps K tempDir files s1). exact H1. }
  split; [exact H1|]. split; [exact H2|].
  unfold after at 1. rewrite processInput_run. cbn [snd]. fold tempDir.
  assert (Hbody : after (tryBlock this tempDir inputs) (after cwd s) = converted).
  { unfold after at 1. rewrite (tryBlock_expanded _ _ _ _ _ _ Hc). subst converted.
    destruct (Z.of_nat (List.length files) =? 0)%Z; reflexivity. }
  rewrite Hbody, cleanup_trace, H2. reflexivity.
Qed.

End StagingLifetime.

(* ================================================================== *)
(** * Further properties: the extension test on names and on paths *)
(* ================================================================== *)

Section ExtensionFacts.
Import NodePath.

Lemma extname_scan_step (p : string) (i : nat) (st : ExtScan) (code : ascii) :
  String.get i p = Some code -> Ascii.eqb code "/" = false ->
  extname_scan p (S i) st = extname_scan p i (scan_step code i st).
Proof. intros H1 H2. simpl. rewrite H1, H2. reflexivity. Qed.

Lemma extname_scan_break (p : string) (i : nat) (st : ExtScan) :
  String.get i p = Some "/"%char -> matchedSlash st = false ->
  extname_scan p (S i) st
  = {| startDot := startDot st; startPart := Z.of_nat i + 1; endPos := endPos st;
       matchedSlash := matchedSlash st; preDotState := preDotState st |}.
Proof. intros H1 H2. simpl. rewrite H1, H2. reflexivity. Qed.

Lemma scan_step_wf (code : ascii) (i : nat) (st : ExtScan) :
  scan_wf st -> scan_wf (scan_step code i st).
Proof.
  unfold scan_wf, scan_step. destruct st as [sd sp ep ms pd]. simpl. intros [H1 H2].
  destruct (ep =? -1); destruct (Ascii.eqb code "."); simpl;
    repeat match goal with
           | |- context [if ?b then _ else _] => destruct b; simpl
           end; lia.
Qed.

Lemma shift_scan_step (off i : nat) (code : ascii) (st : ExtScan) :
  scan_wf st ->
  shift (Z.of_nat off) (scan_step code i st) = scan_step code (off + i) (shift (Z.of_nat off) st).
Proof.
  unfold scan_wf, scan_step, shift. destruct st as [sd sp ep ms pd]. simpl. intros [H1 H2].
  destruct (Z.eq_dec sd (-1)), (Z.eq_dec ep (-1)), (Z.eq_dec pd 1); subst;
    destruct (Ascii.eqb code ".");
    repeat (cbn [startDot startPart endPos matchedSlash preDotState negb];
            match goal with
            | |- context [?a =? ?b] =>
                first [ replace (a =? b) with true by (symmetry; apply Z.eqb_eq; lia)
                      | replace (a =? b) with false by (symmetry; apply Z.eqb_neq; lia) ]
            end);
    cbn [startDot startPart endPos matchedSlash preDotState negb];
    f_equal; lia.
Qed.

Lemma get_append_right (a b : string) (i : nat) :
  String.get (String.length a + i) (a ++ b) = String.get i b.
Proof. induction a as [|c a IH]; simpl; [reflexivity | exact IH]. Qed.

Lemma substring_append_right (a b : string) (i len : nat) :
  substring (String.length a + i) len (a ++ b) = substring i len b.
Proof. induction a as [|c a IH]; simpl; [reflexivity | exact IH]. Qed.

Lemma length_append (a b : string) :
  String.length (a ++ b) = (String.length a + String.length b)%nat.
Proof. induction a as [|c a IH]; simpl; [reflexivity | now rewrite IH]. Qed.

(** Scanning the last [k] characters of a plain name [n] standing at the end
    of [a ++ n] goes as scanning [n] alone, positions apart. *)
Lemma scan_suffix (a n : string) :
  (forall i, String.get i n <> Some "/"%char) ->
  forall (k : nat) (st : ExtScan),
    (k <= String.length n)%nat -> scan_wf st ->
    extname_scan (a ++ n) (String.length a + k) (shift (Z.of_nat (String.length a)) st)
    = extname_scan (a ++ n) (String.length a)
        (shift (Z.of_nat (String.length a)) (extname_scan n k st))
    /\ scan_wf (extname_scan n k st)
    /\ startPart (extname_scan n k st) = startPart st
    /\ ((0 < k)%nat -> (endPos st = -1 \/ matchedSlash st = false) ->
        matchedSlash (extname_scan n k st) = false /\ endPos (extname_scan n k st) <> -1).
Proof.
  intros Hplain. induction k as [|k IH]; intros st Hk Hwf.
  - rewrite Nat.add_0_r. simpl. repeat split; try apply Hwf; lia.
  - destruct (String.get k n) as [code|] eqn:Hget.
    2:{ exfalso. clear IH. revert k Hk Hget. induction n as [|c n' IHn]; intros k Hk Hget.
        - simpl in Hk. lia.
        - destruct k; simpl in *; [discriminate|].
          apply (IHn (fun i => Hplain (S i)) k); [lia | exact Hget]. }
    assert (Hcode : Ascii.eqb code "/" = false).
    { destruct (Ascii.eqb_spec code "/"); [|reflexivity]. subst code.
      exfalso. apply (Hplain k). exact Hget. }
    rewrite (extname_scan_step n k st code Hget Hcode).
    replace (String.length a + S k)%nat with (S (String.length a + k)) by lia.
    rewrite (extname_scan_step (a ++ n) (String.length a + k) _ code);
      [|rewrite get_append_right; exact Hget | exact Hcode].
    rewrite <- shift_scan_step by exact Hwf.
    destruct (IH (scan_step code k st)) as (Hscan & Hwf' & Hpart & Hms);
      [lia | apply scan_step_wf; exact Hwf |].
    split; [exact Hscan|]. split; [exact Hwf'|]. split.
    + rewrite Hpart. unfold scan_step. destruct st as [sd sp ep ms pd]. simpl.
      repeat match goal with
             | |- context [if ?b then _ else _] => destruct b; simpl
             end; reflexivity.
    + intros _ Hinit.
      assert (Hstep : matchedSlash (scan_step code k st) = false
                      /\ endPos (scan_step code k st) <> -1).
      { unfold scan_step. destruct st as [sd sp ep ms pd]. simpl in *.
        destruct Hwf as [_ Hep]. simpl in Hep.
        destruct (Z.eqb_spec ep (-1)); simpl;
          repeat match goal with
                 | |- context [if ?b then _ else _] => destruct b; simpl
                 end;
          (split; [first [reflexivity | destruct Hinit; [lia | assumption]] | lia]). }
      destruct k as [|k'].
      * simpl. exact Hstep.
      * apply Hms; [lia | right; apply Hstep].
Qed.

(** The extension of a path that ends in [/] and a plain name is the
    extension of the name. *)
Lemma extname_of_joined (d n : string) :
  plainName n -> extname (d ++ "/" ++ n) = extname n.
Proof.
  intros [Hne Hplain].
  set (a := d ++ "/").
  assert (Hp : d ++ "/" ++ n = a ++ n).
  { subst a. clear. induction d as [|c d IH]; simpl; [reflexivity | f_equal; exact IH]. }
  assert (Hla : String.length a = S (String.length d)).
  { subst a. rewrite length_append. simpl. lia. }
  assert (Hslash : String.get (String.length d) (a ++ n) = Some "/"%char).
  { subst a. clear. induction d as [|c d IH]; simpl; [reflexivity | exact IH]. }
  destruct (scan_suffix a n Hplain (String.length n) ExtScan_init)
    as (Hscan & Hwf & Hpart & Hms); [lia | unfold scan_wf; simpl; lia |].
  destruct Hms as [Hms Hend];
    [destruct n; [congruence | simpl; lia] | left; reflexivity |].
  set (F := extname_scan n (String.length n) ExtScan_init) in *.
  assert (HF : extname_scan (a ++ n) (String.length a + String.length n) ExtScan_init
               = {| startDot := startDot (shift (Z.of_nat (String.length a)) F);
                    startPart := Z.of_nat (String.length d) + 1;
                    endPos := endPos (shift (Z.of_nat (String.length a)) F);
                    matchedSlash := matchedSlash (shift (Z.of_nat (String.length a)) F);
                    preDotState := preDotState (shift (Z.of_nat (String.length a)) F) |}).
  { change ExtScan_init with (shift (Z.of_nat (String.length a)) ExtScan_init) at 1.
    rewrite Hscan. rewrite Hla at 1.
    apply extname_scan_break; [exact Hslash | exact Hms]. }
  rewrite Hp. unfold extname. rewrite length_append, HF. fold F.
  cbn [startDot startPart endPos matchedSlash preDotState shift].
  simpl in Hpart. destruct F as [sd sp ep ms pd].
  cbn [startDot startPart endPos matchedSlash preDotState] in *. subst sp.
  destruct Hwf as [Hsd Hep]. cbn [startDot endPos] in Hsd, Hep.
  destruct (Z.eqb_spec ep (-1)); [contradiction|].
  destruct (Z.eqb_spec sd (-1)); [reflexivity|].
  destruct (Z.eqb_spec (sd + Z.of_nat (String.length a)) (-1)); [lia|].
  destruct (Z.eqb_spec (ep + Z.of_nat (String.length a)) (-1)); [lia|].
  cbn [orb].
  destruct (pd =? 0); cbn [orb]; [reflexivity|].
  replace (sd + Z.of_nat (String.length a) =? ep + Z.of_nat (String.length a) - 1)
    with (sd =? ep - 1)
    by (destruct (Z.eqb_spec sd (ep - 1)), (Z.eqb_spec (sd + Z.of_nat (String.length a))
                                                        (ep + Z.of_nat (String.length a) - 1));
        try reflexivity; lia).
  replace (sd + Z.of_nat (String.length a) =? Z.of_nat (String.length d) + 1 + 1)
    with (sd =? 0 + 1)
    by (rewrite Hla;
        destruct (Z.eqb_spec sd (0 + 1)), (Z.eqb_spec (sd + Z.of_nat (S (String.length d)))
                                                      (Z.of_nat (String.length d) + 1 + 1));
        try reflexivity; lia).
  destruct ((pd =? 1) && (sd =? ep - 1) && (sd =? 0 + 1)); [reflexivity|].
  replace (Z.to_nat (sd + Z.of_nat (String.length a)))
    with (String.length a + Z.to_nat sd)%nat by lia.
  replace (ep + Z.of_nat (String.length a) - (sd + Z.of_nat (String.length a)))
    with (ep - sd) by lia.
  apply substring_append_right.
Qed.

End ExtensionFacts.

Section FoundFilesFacts.
Context {P : Platform}.

Lemma plainNameb_plain (n : string) : plainNameb n = true -> plainName n.
Proof.
  unfold plainNameb, plainName. intros H. apply andb_prop in H as [Ht Hs]. split.
  - destruct n; [discriminate | congruence].
  - clear Ht. induction n as [|c n IH]; intros i; simpl in *.
    + destruct i; discriminate.
    + apply andb_prop in Hs as [Hc Hs]. destruct i.
      * intros H. injection H as ->. discriminate.
      * apply IH. exact Hs.
Qed.

Lemma plainlyJoinedIn_In (directory : string) (items : list Dirent) (item : Dirent) :
  plainlyJoinedIn directory items -> In item items -> plainlyJoined directory item.
Proof.
  unfold plainlyJoinedIn. induction items as [|it items IH]; simpl; [contradiction|].
  intros [Hit Hrest] [<- | Hin]; [exact Hit | apply IH; assumption].
Qed.

Lemma expands_has_extension (deep : bool) (directory : string) (items : list Dirent)
      (p : string) :
  Expands deep directory items p ->
  plainlyJoinedIn directory items ->
  hasTiffExtension p = true.
Proof.
  induction 1 as [d its n Hin Hext | d its n sub q _ Hin _ IH]; intros Hpj.
  - destruct (plainlyJoinedIn_In _ _ _ Hpj Hin) as (Hname & Hjoin & _).
    cbn [dirent_name] in Hname, Hjoin.
    rewrite Hjoin. unfold hasTiffExtension in *.
    rewrite (extname_of_joined d n (plainNameb_plain n Hname)). exact Hext.
  - apply IH. destruct (plainlyJoinedIn_In _ _ _ Hpj Hin) as (_ & _ & Hsub). exact Hsub.
Qed.

Lemma no_listing_error_listable (items : list Dirent) :
  firstListingErrorIn items = None -> forallb listable items = true.
Proof.
  unfold firstListingErrorIn. induction items as [|it items IH]; simpl; [reflexivity|].
  pose proof (findTiffFiles_item_first_error it) as Hit.
  destruct (firstListingError it); [discriminate|].
  intros H. rewrite Hit. apply IH. exact H.
Qed.

(** X16: directory search and validation agree on the extension.  Where
    entries have plain names and [path.join] puts a name after its directory
    and a separator, every path [findTiffFiles] returns has a TIFF extension
    as [isValidTiffFile] tests it on the whole path; such a file can fail
    validation only for not being a regular file or for what the metadata
    probe says. *)
Theorem X16_found_files_pass_the_extension_test :
  forall (this : ImageConverter) (directory : string) (s : State)
         (items : list Dirent) (files : list string),
    fs_readdir directory (world s) = Ok items ->
    plainlyJoinedIn directory items ->
    result (findTiffFiles this directory) s = Ok files ->
    forall p, In p files ->
      hasTiffExtension p = true
      /\ forall w, passesValidation w p = isRegularFile w p && probesAsTiff w p.
Proof.
  intros this directory s items files Hrd Hpj Hrun p Hin.
  assert (Hexp : Expands (recursive (options this)) directory items p).
  { unfold result, findTiffFiles in Hrun.
    destruct (recursive (options this)) eqn:Hdeep.
    - erewrite run_bind in Hrun; [|rewrite run_readdir; rewrite Hrd; reflexivity].
      destruct (firstListingErrorIn items) as [e|] eqn:Herr.
      + pose proof (findTiffFiles_loop_first_error items e Herr directory []
                      (log (EvReaddir directory) s (world s))) as Hthrow.
        unfold result in Hthrow. unfold findTiffFiles_deep in Hrun. congruence.
      + destruct (findTiffFiles_deep_run directory items
                    (log (EvReaddir directory) s (world s))
                    (no_listing_error_listable items Herr)) as [Hok _].
        unfold result in Hok. rewrite Hok in Hrun. injection Hrun as <-.
        apply depthFirst_expands. exact Hin.
    - erewrite run_bind in Hrun; [|rewrite run_readdir; rewrite Hrd; reflexivity].
      unfold ret in Hrun. cbn [fst] in Hrun. injection Hrun as <-.
      rewrite findTiffFiles_flat_filter in Hin. apply flat_expands. exact Hin. }
  pose proof (expands_has_extension _ _ _ _ Hexp Hpj) as Hext.
  split; [exact Hext|]. intros w. unfold passesValidation. rewrite Hext.
  rewrite andb_true_r. reflexivity.
Qed.

End FoundFilesFacts.

(* ================================================================== *)
(** * The further properties at work on the in-memory platform *)
(* ================================================================== *)

(** X5 on the sample world: [q.tiff] passes validation and does not decode;
    its directory is there after the failed conversion. *)
Lemma X5_witness :
  Mem.m_pathExists "/work/photos/old"
    (world (after (convertFile (Mem.converter false None) "/work/photos/old/q.tiff")
                  (Mem.start Mem.sample)))
  = true
  /\ exists elapsed,
       result (convertFile (Mem.converter false None) "/work/photos/old/q.tiff")
              (Mem.start Mem.sample)
       = Ok (failedResult "/work/photos/old/q.tiff"
                          "Input file is missing or cannot be decoded" elapsed).
Proof.
  destruct (proj2 (proj2 (X5_convertFile_calls_in_order
                            (Mem.converter false None) "/work/photos/old/q.tiff"
                            (Mem.start Mem.sample)))
                  Mem_keeps eq_refl eq_refl) as [Hdir Hres].
  split; [exact Hdir|].
  exact (Hres (JsError "Input file is missing or cannot be decoded") eq_refl).
Defined.

(** X2 on the sample world: [a.tif] of two directories, written to [/out]. *)
Lemma X2_witness :
  generateOutputPath (P := Mem.platform) Mem_toOut "/work/a.tif" = "/out/a.jpg"
  /\ generateOutputPath (P := Mem.platform) Mem_toOut "/work/photos/a.TIFF" = "/out/a.jpg".
Proof.
  pose proof (proj1 (proj1 (X2_output_path_by_base_name (P := Mem.platform) Mem_toOut "/out"
                              "/work/a.tif" "/work/photos/a.TIFF"
                              (Mem.start Mem.sample) (Mem.start Mem.sample)
                              (failedResult "" "" 0) (failedResult "" "" 0) eq_refl)
                           eq_refl eq_refl)) as H.
  split; [reflexivity | rewrite <- H; reflexivity].
Defined.

(** X8 on the sample world: the folder [F2] lists one file. *)
Lemma X8_witness :
  exists s2,
    processGoogleDriveFolder (Mem.converter false (Some {| initialized := true |}))
      "F2" "/stage" (Mem.start Mem.sample)
    = (Ok ["/stage/r3.tif"], s2)
    /\ trace s2 = [EvDriveList (GoogleDrive.listQuery "F2"); EvDriveGet "id3";
                   EvDriveStream "id3" "/stage/r3.tif"].
Proof.
  eexists. split; [reflexivity|].
  apply (proj2 (X8_fetch_returns_one_staged_path_per_listed_file
                  (Mem.converter false (Some {| initialized := true |}))
                  "F2" "/stage" (Mem.start Mem.sample))
               [Mem.remoteFile "id3" "r3.tif"]
               (after (GoogleDrive.listTiffFiles "F2") (Mem.start Mem.sample))
               ["/stage/r3.tif"]); reflexivity.
Defined.

(** X10 on the vault: the recursive expansion throws the listing error, the
    other one returns the two top-level files. *)
Lemma X10_witness :
  result (processLocalPath (Mem.converter true None) "vault") (Mem.start Mem_vault)
    = Throw (JsError "EACCES: permission denied, scandir")
  /\ result (processLocalPath (Mem.converter false None) "vault") (Mem.start Mem_vault)
     = Ok ["/work/vault/x.tif"; "/work/vault/y.tif"].
Proof.
  split.
  - apply (proj1 (X10_unreadable_subdirectory_aborts_recursive_expansion
                    (Mem.converter true None) "vault" (Mem.start Mem_vault) Mem_vaultItems
                    (JsError "EACCES: permission denied, scandir")
                    eq_refl eq_refl eq_refl eq_refl)).
    reflexivity.
  - reflexivity.
Defined.

(** X11 on the sample world: [photos] and its subdirectory [old]. *)
Lemma X11_witness :
  exists top all,
    result (findTiffFiles (Mem.converter false None) "/work/photos") (Mem.start Mem.sample)
      = Ok top
    /\ result (findTiffFiles (Mem.converter true None) "/work/photos") (Mem.start Mem.sample)
       = Ok all
    /\ incl top all.
Proof.
  destruct (X11_recursive_search_extends_flat_search
              (Mem.converter false None) (Mem.converter true None) "/work/photos"
              (Mem.start Mem.sample) Mem.photos eq_refl eq_refl eq_refl eq_refl)
    as (top & all & H1 & H2 & H3 & _).
  exists top, all. auto.
Defined.

(** X12 on the sample world, with a Drive service at hand. *)
Lemma X12_witness :
  exists evs,
    trace (after (processInput (Mem.converter true (Some {| initialized := true |}))
                    ["photos"; "a.tif"]) (Mem.start Mem.sample))
    = evs
    /\ forall ev, In ev evs -> driveEvent ev = false.
Proof.
  destruct (X12_local_inputs_never_reach_the_drive
              (Mem.converter true (Some {| initialized := true |}))
              ["photos"; "a.tif"] (Mem.start Mem.sample)) as (evs & Htr & Hall).
  - repeat constructor.
  - exists evs. split; [exact Htr | exact Hall].
Defined.

(** X13 on the sample world: four candidates, two converted. *)
Lemma X13_witness :
  let stats := {| total := 4; successful := 2; failed := 2; totalTime := 300 |} in
  total stats = successful stats + failed stats.
Proof.
  apply (X13_run_statistics_add_up (Mem.converter true None) ["photos"; "a.tif"; "b.tif"]
           (Mem.start Mem.sample)).
  reflexivity.
Defined.

(** X14 on the sample world: the same file named twice is listed twice. *)
Lemma X14_witness :
  exists fx fy s1,
    for_of ["a.tif"] (expandInput (Mem.converter false None) "/stage") []
           (Mem.start Mem.sample) = (Ok fx, s1)
    /\ ["/work/a.tif"; "/work/a.tif"] = (fx ++ fy)%list.
Proof.
  destruct (X14_expansion_concatenates_in_input_order (Mem.converter false None) "/stage"
              ["a.tif"] ["a.tif"] (Mem.start Mem.sample)
              (after (for_of ["a.tif"; "a.tif"]
                             (expandInput (Mem.converter false None) "/stage") [])
                     (Mem.start Mem.sample))
              ["/work/a.tif"; "/work/a.tif"] eq_refl)
    as (fx & fy & s1 & Hx & _ & Hcat).
  exists fx, fy, s1. split; assumption.
Defined.

(** X15 on the sample world: a Drive folder fetched and converted. *)
Lemma X15_witness :
  Mem.m_pathExists "/work/.temp-downloads"
    (world (after (collectFiles (Mem.converter false (Some {| initialized := true |}))
                     "/work/.temp-downloads" ["https://drive.google.com/drive/folders/F2"])
                  (after cwd (Mem.start Mem.sample))))
  = true.
Proof.
  apply (X15_staging_directory_lives_until_the_cleanup
           (Mem.converter false (Some {| initialized := true |})) Mem_keeps
           ["https://drive.google.com/drive/folders/F2"] (Mem.start Mem.sample)
           ["/work/.temp-downloads/r3.tif"]).
  reflexivity.
Defined.

(** X16 on the sample world: what the recursive search finds in [photos]. *)
Lemma X16_witness :
  hasTiffExtension "/work/photos/old/q.tiff" = true.
Proof.
  apply (X16_found_files_pass_the_extension_test (Mem.converter true None) "/work/photos"
           (Mem.start Mem.sample) Mem.photos
           ["/work/photos/p.TIF"; "/work/photos/old/q.tiff"]).
  - reflexivity.
  - simpl. repeat split.
  - reflexivity.
  - right. left. reflexivity.
Defined.
